(** * Knowledge-base build pipeline and retrieval engine

    A shallow embedding of the TypeScript sources

    - [scripts/modules/secret-scan.ts]   (redactor),
    - [scripts/modules/chunking.ts]      (chunker),
    - [scripts/modules/kb-schema.ts]     (artifact validation and writing),
    - [src/lib/search/semantic-search.ts], [src/lib/search/search-engine.ts]
      (retrieval engine) and
    - [src/lib/search/kb-loader.ts]      (artifact loading and caching),

    followed by the properties of these functions.

    Conventions of the model.

    - A JavaScript string is a list of code units.  The model covers the
      code units U+0000..U+00FF, one [ascii] each; [String.length] is
      [length].
    - A JavaScript number that counts something is a [nat]; one that may go
      below zero is a [Z]; relevance scores are exact rationals [Q], so the
      rounding of binary64 arithmetic is not part of the model (the module
      [Binary64] evaluates one worked value in binary64 itself).
    - Regular expressions are values of [Regex.regex], run by a backtracking
      matcher with the priorities of the ECMAScript matcher (greedy and lazy
      quantifiers, leftmost match).
    - Collaborators that are not part of the repository (the lunr index, the
      embedding pipeline, [Math.sqrt], [JSON.stringify]) are section
      variables. *)

From Stdlib Require Import Ascii String List ZArith QArith Lia Bool Arith
  Sorted Permutation.
From Stdlib Require DecimalString DecimalNat.
From Stdlib Require Floats Reals Lra.
Import ListNotations.

Set Implicit Arguments.
Local Open Scope nat_scope.

(* ===================================================================== *)
(** * JavaScript strings *)
(* ===================================================================== *)

Module JS.

Definition jsstring := list ascii.

(** A string literal of the source. *)
Definition lit (s : string) : jsstring := list_ascii_of_string s.

Definition code (c : ascii) : nat := nat_of_ascii c.

Definition in_range (lo hi : nat) (c : ascii) : bool :=
  (lo <=? code c) && (code c <=? hi).

Definition is_digit (c : ascii) : bool := in_range 48 57 c.
Definition is_upper (c : ascii) : bool := in_range 65 90 c.
Definition is_lower (c : ascii) : bool := in_range 97 122 c.
Definition is_alnum (c : ascii) : bool := is_lower c || is_upper c || is_digit c.

(** [\w] *)
Definition is_word (c : ascii) : bool := is_alnum c || (code c =? 95).

(** Line terminators below U+0100: LF and CR. *)
Definition is_line_terminator (c : ascii) : bool :=
  (code c =? 10) || (code c =? 13).

(** [\s], which is also what [trim] strips: TAB, LF, VT, FF, CR, SP, NBSP. *)
Definition is_space (c : ascii) : bool :=
  in_range 9 13 c || (code c =? 32) || (code c =? 160).

Definition one_of (s : string) (c : ascii) : bool :=
  existsb (Ascii.eqb c) (lit s).

(** [toLowerCase] and [toUpperCase] on single code units.  Below U+0100,
    lower-casing moves A-Z and the Latin-1 capitals (except the
    multiplication sign) by 32. *)
Definition to_lower (c : ascii) : ascii :=
  if is_upper c || (in_range 192 222 c && negb (code c =? 215))
  then ascii_of_nat (code c + 32) else c.

Definition ascii_upper (c : ascii) : ascii :=
  if is_lower c then ascii_of_nat (code c - 32) else c.

Definition ascii_lower (c : ascii) : ascii :=
  if is_upper c then ascii_of_nat (code c + 32) else c.

Definition toLowerCase (s : jsstring) : jsstring := map to_lower s.

Definition str_eqb (a b : jsstring) : bool :=
  if list_eq_dec ascii_dec a b then true else false.

(** [s.trim()] *)
Fixpoint trimStart (s : jsstring) : jsstring :=
  match s with
  | c :: s' => if is_space c then trimStart s' else s
  | [] => []
  end.

Definition trimEnd (s : jsstring) : jsstring := rev (trimStart (rev s)).

Definition trim (s : jsstring) : jsstring := trimEnd (trimStart s).

(** [s.substring(0, n)] and [s.substring(n)] for [n >= 0]. *)
Definition substring_to (n : nat) (s : jsstring) : jsstring := firstn n s.
Definition substring_from (n : nat) (s : jsstring) : jsstring := skipn n s.

(** [s.split(c)] for a one-character separator: never empty. *)
Fixpoint split_char (sep : ascii) (s : jsstring) : list jsstring :=
  match s with
  | [] => [[]]
  | c :: s' =>
      if Ascii.eqb c sep then [] :: split_char sep s'
      else match split_char sep s' with
           | w :: ws => (c :: w) :: ws
           | [] => [[c]]
           end
  end.

Definition newline : ascii := ascii_of_nat 10.

Definition lines_of (s : jsstring) : list jsstring := split_char newline s.

(** [parts.join(sep)] *)
Fixpoint join (sep : jsstring) (parts : list jsstring) : jsstring :=
  match parts with
  | [] => []
  | [p] => p
  | p :: ps => p ++ sep ++ join sep ps
  end.

Definition join_lines (ls : list jsstring) : jsstring := join [newline] ls.

(** [s.startsWith(p)] *)
Fixpoint starts_with (p s : jsstring) : bool :=
  match p, s with
  | [], _ => true
  | a :: p', b :: s' => Ascii.eqb a b && starts_with p' s'
  | _ :: _, [] => false
  end.

(** [s.indexOf(p)]: the first position at which [p] occurs, [None] for -1. *)
Fixpoint indexOf_from (i : nat) (p s : jsstring) : option nat :=
  if starts_with p s then Some i
  else match s with
       | [] => None
       | _ :: s' => indexOf_from (S i) p s'
       end.

Definition indexOf (p s : jsstring) : option nat := indexOf_from 0 p s.

Definition includes (p s : jsstring) : bool :=
  match indexOf p s with Some _ => true | None => false end.

(** [s.lastIndexOf(c)] for a single character. *)
Fixpoint lastIndexOf_from (i : nat) (c : ascii) (s : jsstring) (acc : option nat)
  : option nat :=
  match s with
  | [] => acc
  | d :: s' =>
      lastIndexOf_from (S i) c s' (if Ascii.eqb d c then Some i else acc)
  end.

Definition lastIndexOf (c : ascii) (s : jsstring) : option nat :=
  lastIndexOf_from 0 c s None.

(** Template-literal rendering of a non-negative integer. *)
Definition show_nat (n : nat) : jsstring :=
  lit (DecimalString.NilEmpty.string_of_uint (Nat.to_uint n)).

End JS.

Import JS.

(* ===================================================================== *)
(** * Regular expressions *)
(* ===================================================================== *)

Module Regex.

(** The fragment of ECMAScript regular expressions that the sources use.
    [Rep g lo hi r] is [r{lo,hi}] ([hi = None]: unbounded), greedy when [g]
    holds and lazy otherwise.  The assertion [^] without the [m] flag is
    rendered by matching at position 0 only ([test_at_start]). *)
Inductive regex : Type :=
| Empty : regex
| Char  : (ascii -> bool) -> regex
| Seq   : regex -> regex -> regex
| Rep   : bool -> nat -> option nat -> regex -> regex
| Eol   : regex.

Definition orelse {A} (a b : option A) : option A :=
  match a with Some _ => a | None => b end.

(** The matcher in continuation-passing style: [rmatch r s k] matches [r]
    at the head of [s] and hands the rest to [k]; a [None] from [k] makes
    the matcher backtrack.  An iteration past the minimum that consumes
    nothing is rejected, as in ECMAScript. *)
Fixpoint rmatch {A} (r : regex) (s : jsstring) (k : jsstring -> option A)
  {struct r} : option A :=
  match r with
  | Empty => k s
  | Char p =>
      match s with
      | c :: s' => if p c then k s' else None
      | [] => None
      end
  | Seq r1 r2 => rmatch r1 s (fun s' => rmatch r2 s' k)
  | Eol => match s with [] => k s | _ :: _ => None end
  | Rep greedy lo hi r1 =>
      (fix loop (rem lo : nat) (s : jsstring) {struct rem} : option A :=
         match lo with
         | S lo' =>
             match rem with
             | S rem' => rmatch r1 s (fun s' => loop rem' lo' s')
             | O => None
             end
         | O =>
             match rem with
             | O => k s
             | S rem' =>
                 let more :=
                   rmatch r1 s (fun s' =>
                     if length s' <? length s then loop rem' O s' else None) in
                 if greedy then orelse more (k s) else orelse (k s) more
             end
         end)
        (match hi with Some h => h | None => lo + length s end) lo s
  end.

(** The rest of the input after the match of [r] at the head of [s]. *)
Definition match_here (r : regex) (s : jsstring) : option jsstring :=
  rmatch r s (fun rest => Some rest).

(** [/^.../.test(s)]. *)
Definition test_at_start (r : regex) (s : jsstring) : bool :=
  match match_here r s with Some _ => true | None => false end.

(** One piece of the input as a global scan sees it. *)
Inductive piece : Type :=
| Skipped : ascii -> piece
| Matched : jsstring -> piece.

(** The successive leftmost matches of a [g] regular expression.  [skip]
    counts the code units of the current match that are still to be passed
    over.  After an empty match the scan moves on by one code unit. *)
Fixpoint scan_from (r : regex) (skip : nat) (s : jsstring) : list piece :=
  match skip with
  | S skip' =>
      match s with
      | _ :: s' => scan_from r skip' s'
      | [] => []
      end
  | O =>
      match match_here r s with
      | Some rest =>
          let n := length s - length rest in
          match s with
          | c :: s' =>
              match n with
              | O => Matched [] :: Skipped c :: scan_from r O s'
              | S n' => Matched (firstn n s) :: scan_from r n' s'
              end
          | [] => [Matched []]
          end
      | None =>
          match s with
          | c :: s' => Skipped c :: scan_from r O s'
          | [] => []
          end
      end
  end.

Definition scan (r : regex) (s : jsstring) : list piece := scan_from r 0 s.

(** [s.match(r)] for a [g] regular expression: all the matches. *)
Fixpoint matches_of (ps : list piece) : list jsstring :=
  match ps with
  | [] => []
  | Matched m :: ps' => m :: matches_of ps'
  | Skipped _ :: ps' => matches_of ps'
  end.

Definition match_all (r : regex) (s : jsstring) : list jsstring :=
  matches_of (scan r s).

(** [s.replace(r, by)] for a [g] regular expression and a replacement
    without [$] patterns. *)
Fixpoint replace_pieces (by_ : jsstring) (ps : list piece) : jsstring :=
  match ps with
  | [] => []
  | Matched _ :: ps' => by_ ++ replace_pieces by_ ps'
  | Skipped c :: ps' => c :: replace_pieces by_ ps'
  end.

Definition replace_all (r : regex) (by_ : jsstring) (s : jsstring) : jsstring :=
  replace_pieces by_ (scan r s).

(** [s.split(r)] for a regular expression that matches no empty string. *)
Fixpoint split_pieces (cur : jsstring) (ps : list piece) : list jsstring :=
  match ps with
  | [] => [rev cur]
  | Matched _ :: ps' => rev cur :: split_pieces [] ps'
  | Skipped c :: ps' => split_pieces (c :: cur) ps'
  end.

Definition split (r : regex) (s : jsstring) : list jsstring :=
  split_pieces [] (scan r s).

(** ** Building blocks *)

Definition chr (c : ascii) : regex := Char (Ascii.eqb c).

(** A literal character under the [i] flag. *)
Definition chr_i (c : ascii) : regex :=
  Char (fun d => Ascii.eqb (ascii_upper d) (ascii_upper c)).

(** A character class under the [i] flag: [d] belongs to it when some
    member has the same canonical (upper-case) form. *)
Definition class_i (p : ascii -> bool) : ascii -> bool :=
  fun d => p (ascii_upper d) || p (ascii_lower d).

Fixpoint seq_of (rs : list regex) : regex :=
  match rs with
  | [] => Empty
  | [r] => r
  | r :: rs' => Seq r (seq_of rs')
  end.

Definition str (s : string) : regex := seq_of (map chr (lit s)).
Definition str_i (s : string) : regex := seq_of (map chr_i (lit s)).
Definition literal (s : jsstring) : regex := seq_of (map chr s).

Definition star (r : regex) : regex := Rep true 0 None r.
Definition plus (r : regex) : regex := Rep true 1 None r.
Definition opt (r : regex) : regex := Rep true 0 (Some 1) r.
Definition lazy_star (r : regex) : regex := Rep false 0 None r.
Definition exactly (n : nat) (r : regex) : regex := Rep true n (Some n) r.
Definition at_least (n : nat) (r : regex) : regex := Rep true n None r.

Definition space : regex := Char is_space.
Definition any : regex := Char (fun _ => true).
Definition dot : regex := Char (fun c => negb (is_line_terminator c)).

End Regex.

Import Regex.

(* ===================================================================== *)
(** * The redactor: [scripts/modules/secret-scan.ts] *)
(* ===================================================================== *)

Module SecretScan.

Definition alnum : regex := Char is_alnum.

(** [[a-zA-Z0-9_-]] *)
Definition token_char (c : ascii) : bool := is_alnum c || one_of "_-" c.

(** [SECRET_PATTERNS], all with the [g] flag; the last two AWS patterns and
    the password and API-key patterns also carry the [i] flag. *)

(** [/ghp_[a-zA-Z0-9]{36}/g] *)
Definition github_pat : regex := Seq (str "ghp_") (exactly 36 alnum).

(** [/github_pat_[a-zA-Z0-9_]{82}/g] *)
Definition github_fine_grained : regex :=
  Seq (str "github_pat_") (exactly 82 (Char is_word)).

(** [/AKIA[0-9A-Z]{16}/g] *)
Definition aws_key_id : regex :=
  Seq (str "AKIA") (exactly 16 (Char (fun c => is_digit c || is_upper c))).

(** [/aws_access_key_id\s*=\s*[A-Z0-9]{20}/gi] *)
Definition aws_access_key : regex :=
  seq_of [str_i "aws_access_key_id"; star space; chr "="; star space;
          exactly 20 (Char (class_i (fun c => is_upper c || is_digit c)))].

(** [/aws_secret_access_key\s*=\s*[a-zA-Z0-9/+=]{40}/gi] *)
Definition aws_secret_key : regex :=
  seq_of [str_i "aws_secret_access_key"; star space; chr "="; star space;
          exactly 40 (Char (class_i (fun c => is_alnum c || one_of "/+=" c)))].

(** [/eyJ[a-zA-Z0-9_-]+\.eyJ[a-zA-Z0-9_-]+\.[a-zA-Z0-9_-]+/g] *)
Definition jwt : regex :=
  seq_of [str "eyJ"; plus (Char token_char); chr ".";
          str "eyJ"; plus (Char token_char); chr "."; plus (Char token_char)].

(** [/-----BEGIN\s+(RSA\s+)?PRIVATE KEY-----[\s\S]*?-----END\s+(RSA\s+)?PRIVATE KEY-----/g] *)
Definition private_key : regex :=
  seq_of [str "-----BEGIN"; plus space; opt (Seq (str "RSA") (plus space));
          str "PRIVATE KEY-----"; lazy_star any;
          str "-----END"; plus space; opt (Seq (str "RSA") (plus space));
          str "PRIVATE KEY-----"].

(** The class of the two quote characters, U+0022 and U+0027 (written
    [\x22] and [\x27] below). *)
Definition is_quote (c : ascii) : bool := (code c =? 34) || (code c =? 39).

Definition quote : regex := Char is_quote.

(** [/password\s*[:=]\s*[\x22\x27]?[^\s\x22\x27]{8,}[\x22\x27]?/gi] *)
Definition password : regex :=
  seq_of [str_i "password"; star space; Char (one_of ":="); star space;
          opt quote;
          at_least 8 (Char (fun c => negb (class_i (fun d => is_space d || is_quote d) c)));
          opt quote].

(** [/api[_-]?key\s*[:=]\s*[\x22\x27]?[a-zA-Z0-9_-]{20,}[\x22\x27]?/gi] *)
Definition api_key : regex :=
  seq_of [str_i "api"; opt (Char (one_of "_-")); str_i "key"; star space;
          Char (one_of ":="); star space; opt quote;
          at_least 20 (Char (class_i token_char)); opt quote].

Definition SECRET_PATTERNS : list (regex * jsstring) :=
  [ (github_pat,          lit "GitHub Personal Access Token");
    (github_fine_grained, lit "GitHub Fine-grained Token");
    (aws_key_id,          lit "AWS Access Key ID");
    (aws_access_key,      lit "AWS Access Key");
    (aws_secret_key,      lit "AWS Secret Key");
    (jwt,                 lit "JWT Token");
    (private_key,         lit "Private Key");
    (password,            lit "Password");
    (api_key,             lit "API Key") ].

Definition REDACTION_MARKER : jsstring := lit "[REDACTED]".

Record SecretScanResult : Type := {
  hasSecrets : bool;
  redactedContent : jsstring;
  secretsFound : list (jsstring * nat)
}.

(** The table [freq] of [calculateEntropy]: the number of occurrences of
    each character of [s]. *)
Fixpoint bump (c : ascii) (freq : list (ascii * nat)) : list (ascii * nat) :=
  match freq with
  | [] => [(c, 1)]
  | (d, n) :: freq' =>
      if Ascii.eqb d c then (d, S n) :: freq' else (d, n) :: bump c freq'
  end.

Definition char_counts (s : jsstring) : list (ascii * nat) :=
  fold_left (fun freq c => bump c freq) s [].

(** [calculateEntropy] over the real numbers: the function of the source
    with exact arithmetic in place of binary64. *)
Module Real.

Import Reals.
Local Open Scope R_scope.

(** [Math.log2] *)
Definition log2 (x : R) : R := ln x / ln 2.

Definition calculateEntropy (str : jsstring) : R :=
  let len := INR (length str) in
  fold_left (fun entropy '(_, count) =>
               let p := INR count / len in entropy - p * log2 p)
            (char_counts str) 0.

(** The sum of the counts of a table, and the sum of [c * ln c] over its
    counts [c]. *)
Definition total (freq : list (ascii * nat)) : nat :=
  fold_right (fun e acc => (snd e + acc)%nat) 0%nat freq.

Definition weighted_logs (freq : list (ascii * nat)) : R :=
  fold_right (fun e acc => INR (snd e) * ln (INR (snd e)) + acc) 0 freq.

End Real.

(** [calculateEntropy(str) > 3.5], decided in integers.  With [n] the
    length and [c_i] the counts, the entropy [- sum (c_i/n) log2 (c_i/n)]
    exceeds 7/2 exactly when [n^(2n) > 2^(7n) * prod c_i^(2 c_i)]; the
    lemma [entropy_test_exact] below proves it. *)
Definition entropy_above_threshold (s : jsstring) : bool :=
  let n := Z.of_nat (length s) in
  let prod :=
    fold_left (fun acc '(_, c) => (acc * Z.of_nat c ^ (2 * Z.of_nat c))%Z)
              (char_counts s) 1%Z in
  (2 ^ (7 * n) * prod <? n ^ (2 * n))%Z.

Definition isHighEntropySecret (s : jsstring) : bool :=
  if length s <? 16 then false else entropy_above_threshold s.

Definition HIGH_ENTROPY : jsstring := lit "High-entropy string".

(** [secretsFound.find(...)], the [push] of a fresh entry with count 0 when
    there is none, and the increment of the first such entry. *)
Fixpoint count_finding (type : jsstring) (found : list (jsstring * nat))
  : list (jsstring * nat) :=
  match found with
  | [] => [(type, 1)]
  | (t, n) :: found' =>
      if str_eqb t type then (t, S n) :: found'
      else (t, n) :: count_finding type found'
  end.

(** The state of the two loops of [scanAndRedact]. *)
Definition scan_state : Type := (bool * jsstring * list (jsstring * nat))%type.


Definition pattern_step (content : jsstring) (st : scan_state)
  (entry : regex * jsstring) : scan_state :=
  let '(_, redacted, found) := st in
  let '(pattern, name) := entry in
  let matches := match_all pattern content in
  if 0 <? length matches
  then (true, replace_all pattern REDACTION_MARKER redacted,
        found ++ [(name, length matches)])
  else st.

Definition word_step (st : scan_state) (word : jsstring) : scan_state :=
  let '(_, redacted, found) := st in
  let cleaned := filter is_alnum word in
  if isHighEntropySecret cleaned && (16 <=? length cleaned)
  then (true, replace_all (literal cleaned) REDACTION_MARKER redacted,
        count_finding HIGH_ENTROPY found)
  else st.

Definition scanAndRedact (content : jsstring) : SecretScanResult :=
  let st1 := fold_left (pattern_step content) SECRET_PATTERNS (false, content, []) in
  let words := split (plus space) content in
  let '(has, redacted, found) := fold_left word_step words st1 in
  {| hasSecrets := has; redactedContent := redacted; secretsFound := found |}.


End SecretScan.

(* ===================================================================== *)
(** * The data model: [src/types/kb.types.ts] *)
(* ===================================================================== *)

Inductive SourceScope : Type := public_only | private_local | other_scope (s : jsstring).

Record KBMeta : Type := {
  generatedAt : jsstring;
  sourceScope : SourceScope;
  repoCount : Z;
  docCount : Z;
  version : jsstring
}.

Record DocLocation : Type := { startLine : nat; endLine : nat }.

Inductive PRState : Type := pr_open | pr_closed | pr_merged.

Record PullRequestInfo : Type := {
  pr_number : nat;
  pr_title : jsstring;
  changedFilesCount : nat;
  pr_state : PRState;
  createdAt : jsstring;
  updatedAt : jsstring;
  pr_url : jsstring
}.

Record KBDocument : Type := {
  id : jsstring;
  repo : jsstring;
  path : jsstring;
  lang : jsstring;
  loc : DocLocation;
  title : jsstring;
  contentExcerpt : jsstring;
  tags : list jsstring;
  hash : jsstring;
  pullRequest : option PullRequestInfo
}.

(** [embeddingsLite] is a plain object used as a map from document id to
    vector; its entries are listed in insertion order, as [Object.entries]
    does for keys that are not array indices. *)
Record KBIndex : Type := {
  lunrIndex : jsstring;
  embeddingsLite : option (list (jsstring * list Q))
}.

Record KnowledgeBase : Type := {
  meta : KBMeta;
  docs : list KBDocument;
  index : KBIndex
}.

(** The [matchData.metadata] of a lunr result: term, field, positions. *)
Definition MatchData : Type := list (jsstring * list (jsstring * list (list nat))).

Record SearchResult : Type := {
  doc : KBDocument;
  score : Q;
  matchData : option MatchData
}.

Inductive PRFilter : Type := only (s : PRState) | all_states.

Record SearchFilters : Type := {
  f_repo : option jsstring;
  f_language : option jsstring;
  f_tag : option jsstring;
  f_prStatus : option PRFilter;
  f_fileType : option jsstring
}.

Inductive SearchMode : Type := keyword | semantic | hybrid.

(* ===================================================================== *)
(** * The chunker: [scripts/modules/chunking.ts] *)
(* ===================================================================== *)

Module Chunking.

Definition MAX_CHUNK_SIZE : nat := 3000.
Definition MIN_CHUNK_SIZE : nat := 100.

Record ChunkingOptions : Type := {
  maxChunkSize : option nat;
  minChunkSize : option nat
}.

Definition no_options : ChunkingOptions :=
  {| maxChunkSize := None; minChunkSize := None |}.

(** [option || dflt] on an optional number: absent and 0 are falsy. *)
Definition or_default (o : option nat) (dflt : nat) : nat :=
  match o with
  | Some (S n) => S n
  | _ => dflt
  end.

Definition max_of (options : ChunkingOptions) : nat :=
  or_default (maxChunkSize options) MAX_CHUNK_SIZE.

Definition min_of (options : ChunkingOptions) : nat :=
  or_default (minChunkSize options) MIN_CHUNK_SIZE.

Definition code_langs : list jsstring :=
  map lit ["typescript"; "javascript"; "ts"; "js"; "tsx"; "jsx"]%string.

Definition is_markdown (lang : jsstring) : bool :=
  str_eqb lang (lit "markdown") || str_eqb lang (lit "md").

Definition is_code (lang : jsstring) : bool :=
  existsb (str_eqb lang) code_langs.

(** ** [extractTitle] *)

(** Positions at which [^] holds under the [m] flag, and the test of [$]. *)
Definition at_line_end (s : jsstring) : bool :=
  match s with
  | [] => true
  | c :: _ => is_line_terminator c
  end.

(** The first capture group of the leftmost match of [prefix(body)],
    followed by [$] under the [m] flag when [must_end_line] holds.  With
    [line_starts_only] the match starts with [^] under the [m] flag: at
    position 0 or after a line terminator.  [prev] is the code unit
    before [s]. *)
Fixpoint first_capture (prefix body : regex) (must_end_line : bool)
  (line_starts_only : bool) (prev : option ascii) (s : jsstring)
  : option jsstring :=
  let here :=
    if negb line_starts_only
       || match prev with None => true | Some c => is_line_terminator c end
    then
      rmatch prefix s (fun s1 =>
        rmatch body s1 (fun s2 =>
          if negb must_end_line || at_line_end s2
          then Some (firstn (length s1 - length s2) s1) else None))
    else None in
  match here with
  | Some cap => Some cap
  | None =>
      match s with
      | [] => None
      | c :: s' =>
          first_capture prefix body must_end_line line_starts_only (Some c) s'
      end
  end.

(** [/^#+\s+(.+)$/m] *)
Definition title_heading (content : jsstring) : option jsstring :=
  first_capture (Seq (plus (chr "#")) (plus space)) (plus dot) true true None content.

(** [/(?:export\s+)?(?:async\s+)?function\s+(\w+)/] *)
Definition title_function (content : jsstring) : option jsstring :=
  first_capture
    (seq_of [opt (Seq (str "export") (plus space));
             opt (Seq (str "async") (plus space));
             str "function"; plus space])
    (plus (Char is_word)) false false None content.

(** [/(?:export\s+)?class\s+(\w+)/] *)
Definition title_class (content : jsstring) : option jsstring :=
  first_capture
    (seq_of [opt (Seq (str "export") (plus space)); str "class"; plus space])
    (plus (Char is_word)) false false None content.

Definition extractTitle (content lang : jsstring) : jsstring :=
  let fallback :=
    match find (fun line => negb (length (trim line) =? 0)) (lines_of content) with
    | Some firstLine => substring_to 80 (trim firstLine)
    | None => lit "Untitled"
    end in
  let code_title :=
    if is_code lang then
      match title_function content with
      | Some name => name
      | None =>
          match title_class content with
          | Some name => name
          | None => fallback
          end
      end
    else fallback in
  if is_markdown lang then
    match title_heading content with
    | Some h => trim h
    | None => code_title
    end
  else code_title.

(** ** [chunkMarkdown] *)

(** [/^(#+)\s+(.+)$/] on one line. *)
Definition heading : regex :=
  seq_of [plus (chr "#"); plus space; plus dot; Eol].

Definition is_heading (line : jsstring) : bool := test_at_start heading line.

(** [currentChunk.lastIndexOf('')] *)
Fixpoint last_blank_from (i : nat) (ls : list jsstring) (acc : option nat)
  : option nat :=
  match ls with
  | [] => acc
  | l :: ls' =>
      last_blank_from (S i) ls' (match l with [] => Some i | _ => acc end)
  end.

Definition last_blank (ls : list jsstring) : option nat := last_blank_from 0 ls None.

(** One iteration of the loop over the lines: the state is [chunks] and
    [currentChunk]. *)
Definition markdown_step (options : ChunkingOptions)
  (st : list jsstring * list jsstring) (line : jsstring)
  : list jsstring * list jsstring :=
  let '(chunks, currentChunk) := st in
  if is_heading line then
    let chunks' :=
      match currentChunk with
      | [] => chunks
      | _ :: _ =>
          let chunkText := join_lines currentChunk in
          if min_of options <=? length chunkText
          then chunks ++ [chunkText] else chunks
      end in
    (chunks', [line])
  else
    let currentChunk' := currentChunk ++ [line] in
    let chunkText := join_lines currentChunk' in
    if max_of options <? length chunkText then
      match last_blank currentChunk' with
      | Some (S p) =>
          (chunks ++ [join_lines (firstn (S p) currentChunk')],
           skipn (S p) currentChunk')
      | _ =>
          (chunks ++ [substring_to (max_of options) chunkText],
           [substring_from (max_of options) chunkText])
      end
    else (chunks, currentChunk').

Definition chunkMarkdown (content : jsstring) (options : ChunkingOptions)
  : list jsstring :=
  let '(chunks, currentChunk) :=
    fold_left (markdown_step options) (lines_of content) ([], []) in
  let chunks' :=
    match currentChunk with
    | [] => chunks
    | _ :: _ =>
        let chunkText := join_lines currentChunk in
        if min_of options <=? length chunkText
        then chunks ++ [chunkText] else chunks
    end in
  match chunks' with
  | [] => [content]
  | _ :: _ => chunks'
  end.

(** ** [chunkCode] *)

Definition count_char (c : ascii) (line : jsstring) : nat :=
  length (filter (Ascii.eqb c) line).

Definition opt_kw (kw : string) : regex := opt (Seq (str kw) (plus space)).

(** [/^(export\s+)?(async\s+)?function\s+\w+/] *)
Definition function_start : regex :=
  seq_of [opt_kw "export"; opt_kw "async"; str "function"; plus space;
          plus (Char is_word)].

(** [/^(export\s+)?class\s+\w+/] *)
Definition class_start : regex :=
  seq_of [opt_kw "export"; str "class"; plus space; plus (Char is_word)].

(** [/^(export\s+)?const\s+\w+\s*=\s*(async\s+)?\(/] *)
Definition const_start : regex :=
  seq_of [opt_kw "export"; str "const"; plus space; plus (Char is_word);
          star space; chr "="; star space; opt_kw "async"; chr "("].

Definition starts_declaration (trimmed : jsstring) : bool :=
  test_at_start function_start trimmed
  || test_at_start class_start trimmed
  || test_at_start const_start trimmed.

(** The state of the boundary loop: [boundaries], [braceDepth],
    [inFunction]. *)
Record code_state : Type := {
  boundaries : list nat;
  braceDepth : Z;
  inFunction : bool
}.

Definition last_is (i : nat) (bs : list nat) : bool :=
  match rev bs with
  | b :: _ => b =? i
  | [] => false
  end.

Definition code_step (st : code_state) (i : nat) (line : jsstring) : code_state :=
  let trimmed := trim line in
  let depth :=
    (braceDepth st + Z.of_nat (count_char "{" line)
                   - Z.of_nat (count_char "}" line))%Z in
  let decl := starts_declaration trimmed in
  let bs1 :=
    if decl && (0 <? length (boundaries st)) && negb (last_is i (boundaries st))
    then boundaries st ++ [i] else boundaries st in
  let inF1 := if decl then true else inFunction st in
  if inF1 && (depth =? 0)%Z && includes (lit "}") trimmed
  then {| boundaries := bs1 ++ [S i]; braceDepth := depth; inFunction := false |}
  else {| boundaries := bs1; braceDepth := depth; inFunction := inF1 |}.

Fixpoint code_loop (st : code_state) (i : nat) (lines : list jsstring) : code_state :=
  match lines with
  | [] => st
  | line :: lines' => code_loop (code_step st i line) (S i) lines'
  end.

(** [lines.slice(start, end)] *)
Definition slice {A} (start end_ : nat) (l : list A) : list A :=
  firstn (end_ - start) (skipn start l).

(** [chunkText.match(new RegExp(`.{1,${max}}`, 'g'))] *)
Definition sub_chunks (max : nat) (chunkText : jsstring) : list jsstring :=
  match_all (Rep true 1 (Some max) dot) chunkText.

(** The loop over consecutive boundaries. *)
Fixpoint code_chunks (options : ChunkingOptions) (lines : list jsstring)
  (bs : list nat) : list jsstring :=
  match bs with
  | start :: ((end_ :: _) as bs') =>
      let chunkText := join_lines (slice start end_ lines) in
      let here :=
        if max_of options <? length chunkText
        then sub_chunks (max_of options) chunkText
        else if min_of options <=? length chunkText then [chunkText] else [] in
      here ++ code_chunks options lines bs'
  | _ => []
  end.

Definition chunkCode (content lang : jsstring) (options : ChunkingOptions)
  : list jsstring :=
  let lines := lines_of content in
  let st := code_loop {| boundaries := [0]; braceDepth := 0; inFunction := false |}
                      0 lines in
  let chunks := code_chunks options lines (boundaries st ++ [length lines]) in
  match chunks with
  | [] => [content]
  | _ :: _ => chunks
  end.

(** ** [getLanguageFromPath] *)

(** [langMap] is read at the extension; the names that a plain object
    inherits from [Object.prototype] are not extensions of the model. *)

Definition langMap : list (jsstring * jsstring) :=
  map (fun '(e, l) => (lit e, lit l))
    [(".md", "markdown"); (".txt", "text"); (".ts", "typescript");
     (".tsx", "typescript"); (".js", "javascript"); (".jsx", "javascript");
     (".json", "json"); (".yml", "yaml"); (".yaml", "yaml"); (".sql", "sql")]%string.

Definition getLanguageFromPath (path : jsstring) : jsstring :=
  let ext :=
    match lastIndexOf "." path with
    | Some i => substring_from i path
    | None => path
    end in
  match find (fun '(e, _) => str_eqb e ext) langMap with
  | Some (_, l) => l
  | None => lit "text"
  end.

(** ** [chunkFile] *)

(** The fallback strategy: windows of [maxSize] code units. *)
Fixpoint windows (fuel maxSize : nat) (s : jsstring) : list jsstring :=
  match fuel, s with
  | S fuel', _ :: _ => firstn maxSize s :: windows fuel' maxSize (skipn maxSize s)
  | _, _ => []
  end.

Definition chunks_of (content lang : jsstring) (options : ChunkingOptions)
  : list jsstring :=
  if is_markdown lang then chunkMarkdown content options
  else if is_code lang then chunkCode content lang options
  else windows (length content) (max_of options) content.

Section Documents.

(** [createHash('sha256').update(s).digest('hex')] of node's [crypto]. *)
Variable sha256_hex : jsstring -> jsstring.

Definition generateHash (content : jsstring) : jsstring :=
  substring_to 16 (sha256_hex content).

Definition doc_id (repo relativePath : jsstring) (i : nat) : jsstring :=
  repo ++ lit ":" ++ relativePath ++ lit ":" ++ show_nat i.

(** The loop that turns chunks into documents; [i] is the index of the
    chunk and [lineOffset] the variable of that name. *)
Fixpoint documents_from (content repo relativePath lang : jsstring)
  (options : ChunkingOptions) (i lineOffset : nat) (chunks : list jsstring)
  : list KBDocument :=
  match chunks with
  | [] => []
  | chunkContent :: rest =>
      if length (trim chunkContent) =? 0
      then documents_from content repo relativePath lang options (S i) lineOffset rest
      else
        let before :=
          match indexOf chunkContent content with
          | Some n => substring_to n content
          | None => []
          end in
        let lines := length (lines_of before) in
        let chunkLines := lines_of chunkContent in
        let startLine := lineOffset + lines in
        let endLine := startLine + length chunkLines - 1 in
        let excerpt := trim (substring_to (max_of options) chunkContent) in
        if length excerpt =? 0
        then documents_from content repo relativePath lang options (S i) lineOffset rest
        else
          {| id := doc_id repo relativePath i;
             repo := repo;
             path := relativePath;
             lang := lang;
             loc := {| startLine := startLine; endLine := endLine |};
             title := extractTitle chunkContent lang;
             contentExcerpt := excerpt;
             tags := [];
             hash := generateHash chunkContent;
             pullRequest := None |}
          :: documents_from content repo relativePath lang options (S i) endLine rest
  end.

(** [chunkFile]; [content] is what [readFileSync(filePath, 'utf8')]
    returned. *)
Definition chunkFile (content repo relativePath : jsstring)
  (options : ChunkingOptions) : list KBDocument :=
  let lang := getLanguageFromPath relativePath in
  documents_from content repo relativePath lang options 0 0
    (chunks_of content lang options).

End Documents.

End Chunking.

(* ===================================================================== *)
(** * Artifact validation and writing: [scripts/modules/kb-schema.ts] *)
(* ===================================================================== *)

Module KbSchema.

(** 20 MiB *)
Definition MAX_KB_SIZE : N := 20 * 1024 * 1024.

Definition show_Z (z : Z) : jsstring :=
  lit (DecimalString.NilZero.string_of_int (Z.to_int z)).

Definition is_empty (s : jsstring) : bool :=
  match s with [] => true | _ :: _ => false end.

Definition doc_error (idx : nat) (what : string) : jsstring :=
  lit "Doc " ++ show_nat idx ++ lit ": " ++ lit what.

(** The body of [kb.docs.forEach((doc, idx) => ...)].  The [loc] of a
    [KBDocument] always holds two numbers, so the [invalid loc] branch is
    not reachable on typed input. *)
Definition doc_errors (idx : nat) (d : KBDocument) : list jsstring :=
  (if is_empty (id d) then [doc_error idx "missing id"] else [])
  ++ (if is_empty (repo d) then [doc_error idx "missing repo"] else [])
  ++ (if is_empty (path d) then [doc_error idx "missing path"] else [])
  ++ (if is_empty (lang d) then [doc_error idx "missing lang"] else [])
  ++ (if is_empty (contentExcerpt d) then [doc_error idx "missing contentExcerpt"] else [])
  ++ (if is_empty (hash d) then [doc_error idx "missing hash"] else []).

(** A document with all the fields that [validateKB] asks for. *)
Definition doc_complete (d : KBDocument) : Prop :=
  id d <> [] /\ repo d <> [] /\ path d <> [] /\ lang d <> []
  /\ contentExcerpt d <> [] /\ hash d <> [].

Fixpoint docs_errors (idx : nat) (ds : list KBDocument) : list jsstring :=
  match ds with
  | [] => []
  | d :: ds' => doc_errors idx d ++ docs_errors (S idx) ds'
  end.

Definition scope_known (s : SourceScope) : bool :=
  match s with
  | public_only | private_local => true
  | other_scope _ => false
  end.

Definition meta_errors (kb : KnowledgeBase) : list jsstring :=
  (if is_empty (generatedAt (meta kb)) then [lit "Missing meta.generatedAt"] else [])
  ++ (if scope_known (sourceScope (meta kb)) then [] else [lit "Invalid meta.sourceScope"])
  ++ (if (repoCount (meta kb) <? 0)%Z then [lit "Invalid meta.repoCount"] else [])
  ++ (if (docCount (meta kb) =? Z.of_nat (length (docs kb)))%Z then []
      else [lit "meta.docCount (" ++ show_Z (docCount (meta kb))
            ++ lit ") doesn't match docs.length ("
            ++ show_nat (length (docs kb)) ++ lit ")"]).

Definition index_errors (kb : KnowledgeBase) : list jsstring :=
  if is_empty (lunrIndex (index kb)) then [lit "Missing index.lunrIndex"] else [].

Record validation : Type := { valid : bool; errors : list jsstring }.

Definition validateKB (kb : KnowledgeBase) : validation :=
  let errors := meta_errors kb ++ docs_errors 0 (docs kb) ++ index_errors kb in
  {| valid := length errors =? 0; errors := errors |}.

(** [Buffer.byteLength(s, 'utf8')]: code units below U+0080 take one byte,
    the others of the model two. *)
Definition byteLength (s : jsstring) : N :=
  fold_left (fun n c => N.add n (if code c <? 128 then 1%N else 2%N)) s 0%N.

(** The file system as far as [writeFileSync] is concerned: the files
    written so far, the latest first. *)
Definition files : Type := list (jsstring * jsstring).

Inductive outcome : Type :=
| Written : outcome
| Thrown : jsstring -> outcome.

Section Writing.

(** [JSON.stringify(kb)] and [JSON.stringify(kb, null, 2)]. *)
Variable stringify : KnowledgeBase -> jsstring.
Variable stringify_pretty : KnowledgeBase -> jsstring.

(** [join] of node's [path]. *)
Variable path_join : jsstring -> jsstring -> jsstring.

Definition ensureSizeConstraint (kb : KnowledgeBase) : bool :=
  let size := byteLength (stringify kb) in
  if (MAX_KB_SIZE <? size)%N then false else true.

Definition writeKB (kb : KnowledgeBase) (outputDir : jsstring) (fs : files)
  : outcome * files :=
  let validation := validateKB kb in
  if negb (valid validation) then
    (Thrown (lit "KB validation failed:" ++ [newline]
             ++ join [newline] (errors validation)), fs)
  else if negb (ensureSizeConstraint kb) then
    (Thrown (lit "KB size exceeds limit"), fs)
  else
    let outputPath := path_join outputDir (lit "kb.json") in
    let minOutputPath := path_join outputDir (lit "kb.min.json") in
    let fs1 := (outputPath, stringify_pretty kb) :: fs in
    let fs2 := (minOutputPath, stringify kb) :: fs1 in
    (Written, fs2).

End Writing.

(** What the artifact invariants ask of the vector map: every key is the id
    of a document. *)
Definition vector_keys_known (kb : KnowledgeBase) : bool :=
  match embeddingsLite (index kb) with
  | None => true
  | Some vectors =>
      forallb (fun '(k, _) => existsb (fun d => str_eqb (id d) k) (docs kb)) vectors
  end.

End KbSchema.

(* ===================================================================== *)
(** * Embedding of texts: [scripts/modules/embeddings.ts] and
      [src/lib/search/semantic-search.ts] *)
(* ===================================================================== *)

Module Embedding.

Section Pipeline.

(** The feature-extraction pipeline of the embedding backend, called with
    [{pooling: 'mean', normalize: true}]; [None] when the backend cannot be
    loaded or throws. *)
Variable pipe : jsstring -> option (list Q).

(** The character cap applied before the backend is called. *)
Definition cap (text : jsstring) : jsstring :=
  if 512 <? length text then substring_to 512 text else text.

(** Build time, [embeddings.ts]. *)
Definition generateEmbedding (text : jsstring) : option (list Q) :=
  pipe (cap text).

(** Query time, [semantic-search.ts]. *)
Definition generateQueryEmbedding (query : jsstring) : option (list Q) :=
  pipe (cap query).

(** [embeddings[id] = embedding] on a plain object: a key that is present
    keeps its place. *)
Fixpoint assign (key : jsstring) (v : list Q) (m : list (jsstring * list Q))
  : list (jsstring * list Q) :=
  match m with
  | [] => [(key, v)]
  | (k, w) :: m' =>
      if str_eqb k key then (k, v) :: m' else (k, w) :: assign key v m'
  end.

(** [Promise.all(batch.map(...))]: the embeddings of a batch in its order,
    or a rejection when one of them fails. *)
Fixpoint embed_batch (batch : list KBDocument)
  : option (list (jsstring * list Q)) :=
  match batch with
  | [] => Some []
  | d :: batch' =>
      match generateEmbedding (title d ++ [newline] ++ contentExcerpt d),
            embed_batch batch' with
      | Some embedding, Some rest => Some ((id d, embedding) :: rest)
      | _, _ => None
      end
  end.

(** The loop [for (let i = 0; i < docs.length; i += batchSize)] of
    [generateEmbeddings]; [fuel] bounds the number of batches. *)
Fixpoint embed_batches (fuel batchSize : nat) (docs : list KBDocument)
  (embeddings : list (jsstring * list Q)) : option (list (jsstring * list Q)) :=
  match fuel, docs with
  | S fuel', _ :: _ =>
      match embed_batch (firstn batchSize docs) with
      | Some batchResults =>
          embed_batches fuel' batchSize (skipn batchSize docs)
            (fold_left (fun m '(k, v) => assign k v m) batchResults embeddings)
      | None => None
      end
  | _, _ => Some embeddings
  end.

Definition generateEmbeddings (docs : list KBDocument)
  : option (list (jsstring * list Q)) :=
  embed_batches (length docs) 10 docs [].

End Pipeline.

Section Cosine.

(** [Math.sqrt] *)
Variable sqrt : Q -> Q.

(** The loop of [cosineSimilarity]: [dotProduct], [normA], [normB]. *)
Fixpoint accumulate (a b : list Q) (acc : Q * Q * Q) : Q * Q * Q :=
  match a, b with
  | x :: a', y :: b' =>
      let '(dotProduct, normA, normB) := acc in
      accumulate a' b' (dotProduct + x * y, normA + x * x, normB + y * y)%Q
  | _, _ => acc
  end.

(** [cosineSimilarity] of [semantic-search.ts]: vectors of different
    lengths have similarity 0. *)
Definition cosineSimilarity (a b : list Q) : Q :=
  if negb (length a =? length b) then 0%Q
  else
    let '(dotProduct, normA, normB) := accumulate a b (0, 0, 0)%Q in
    let denominator := (sqrt normA * sqrt normB)%Q in
    if Qeq_bool denominator 0 then 0%Q
    else (dotProduct / denominator)%Q.

End Cosine.

End Embedding.

(* ===================================================================== *)
(** * Index assembly: [scripts/modules/index-builder.ts] *)
(* ===================================================================== *)

Module IndexBuilder.

Section Build.

(** The serialized lunr index of the documents,
    [JSON.stringify(lunr(...).toJSON())], and the embedding backend. *)
Variable lunr_build : list KBDocument -> jsstring.
Variable pipe : jsstring -> option (list Q).

(** [buildIndex]: a failure of [generateEmbeddings] is caught and leaves
    the index without vectors. *)
Definition buildIndex (docs : list KBDocument) (withEmbeddings : bool) : KBIndex :=
  {| lunrIndex := lunr_build docs;
     embeddingsLite :=
       if withEmbeddings then Embedding.generateEmbeddings pipe docs else None |}.

End Build.

End IndexBuilder.

(* ===================================================================== *)
(** * The retrieval engine: [src/lib/search/semantic-search.ts] and
      [src/lib/search/search-engine.ts] *)
(* ===================================================================== *)

Module Search.

Import Embedding.

Inductive SearchError : Type :=
| NotInitialized       (* 'Search index not initialized' *)
| TooFewWords          (* 'Search query must contain at least 2 words' *)
| EmbeddingsRequired.  (* 'Semantic search requires embeddings. ...' *)

(** One result of [lunr.Index.prototype.search]. *)
Record LunrResult : Type := {
  ref : jsstring;
  lunr_score : Q;
  lunr_matchData : option MatchData
}.

(** ** Filters *)

Definition pr_state_eqb (a b : PRState) : bool :=
  match a, b with
  | pr_open, pr_open | pr_closed, pr_closed | pr_merged, pr_merged => true
  | _, _ => false
  end.

(** [doc.path.split('.').pop()?.toLowerCase()] *)
Definition file_extension (p : jsstring) : jsstring :=
  toLowerCase (last (split_char "." p) []).

(** The filter block, the same in the keyword and in the semantic path: a
    predicate that is absent or an empty string is not applied. *)
Definition passes (filters : option SearchFilters) (d : KBDocument) : bool :=
  match filters with
  | None => true
  | Some f =>
      match f_repo f with
      | Some ((_ :: _) as r) => str_eqb (repo d) r
      | _ => true
      end
      && match f_language f with
         | Some ((_ :: _) as l) => str_eqb (lang d) l
         | _ => true
         end
      && match f_tag f with
         | Some ((_ :: _) as t) => existsb (str_eqb t) (tags d)
         | _ => true
         end
      && match f_prStatus f with
         | Some (only s) =>
             match pullRequest d with
             | Some pr => pr_state_eqb (pr_state pr) s
             | None => false
             end
         | _ => true
         end
      && match f_fileType f with
         | Some ((_ :: _) as t) => str_eqb (file_extension (path d)) (toLowerCase t)
         | _ => true
         end
  end.

(** [kb.docs.find((d) => d.id === key)] *)
Definition find_doc (kb : KnowledgeBase) (key : jsstring) : option KBDocument :=
  find (fun d => str_eqb (id d) key) (docs kb).

(** ** Sorting *)

(** [xs.sort((a, b) => b.score - a.score)]: [Array.prototype.sort] is
    stable, and the stable sort by a total preorder is unique; here it is
    computed by insertion. *)
Section Sort.

Variable A : Type.
Variable score_of : A -> Q.

Fixpoint insert_desc (x : A) (l : list A) : list A :=
  match l with
  | [] => [x]
  | y :: l' =>
      if Qle_bool (score_of y) (score_of x) then x :: l
      else y :: insert_desc x l'
  end.

Fixpoint sort_desc (l : list A) : list A :=
  match l with
  | [] => []
  | x :: l' => insert_desc x (sort_desc l')
  end.

End Sort.

(** ** [hasEmbeddings] *)

Definition hasEmbeddings (kb : KnowledgeBase) : bool :=
  match embeddingsLite (index kb) with
  | Some (_ :: _) => true
  | _ => false
  end.

Section Engine.

(** The collaborators.  [lunr_search idx q] is [idx.search(q)], taken to
    return a ranking for every query; [pipe] is the embedding backend
    ([None] when it cannot be loaded or throws); [sqrt] is [Math.sqrt].
    A [limit] is a natural number. *)
Variable LunrIndex : Type.
Variable lunr_search : LunrIndex -> jsstring -> list LunrResult.
Variable pipe : jsstring -> option (list Q).
Variable sqrt : Q -> Q.

(** ** [semanticSearch] *)

(** The scan over [Object.entries(embeddings)]. *)
Definition similarities (queryEmbedding : list Q)
  (embeddings : list (jsstring * list Q)) : list (jsstring * Q) :=
  filter (fun e => negb (Qle_bool (snd e) 0))
    (map (fun '(docId, docEmbedding) =>
            (docId, cosineSimilarity sqrt queryEmbedding docEmbedding))
         embeddings).

(** The loop over [similarities.slice(0, limit * 2)], with its [continue]s
    and its [break]. *)
Fixpoint collect (kb : KnowledgeBase) (filters : option SearchFilters)
  (limit : nat) (candidates : list (jsstring * Q)) (results : list SearchResult)
  : list SearchResult :=
  match candidates with
  | [] => results
  | (docId, s) :: rest =>
      match find_doc kb docId with
      | None => collect kb filters limit rest results
      | Some d =>
          if passes filters d then
            let results' :=
              results ++ [{| doc := d; score := s; matchData := None |}] in
            if limit <=? length results' then results'
            else collect kb filters limit rest results'
          else collect kb filters limit rest results
      end
  end.

Definition semanticSearch (query : jsstring) (kb : KnowledgeBase)
  (filters : option SearchFilters) (limit : nat)
  : SearchError + list SearchResult :=
  if negb (hasEmbeddings kb) then inl EmbeddingsRequired
  else
    match embeddingsLite (index kb), generateQueryEmbedding pipe query with
    | Some embeddings, Some queryEmbedding =>
        let sorted := sort_desc snd (similarities queryEmbedding embeddings) in
        inr (collect kb filters limit (firstn (limit * 2) sorted) [])
    | _, _ =>
        (* the [catch]: a failing backend yields no result *)
        inr []
    end.

(** ** [search] *)

(** The module variables [searchIndex] and [kbData]. *)
Record engine : Type := {
  searchIndex : option LunrIndex;
  kbData : option KnowledgeBase
}.

Definition to_result (kb : KnowledgeBase) (filters : option SearchFilters)
  (r : LunrResult) : option SearchResult :=
  match find_doc kb (ref r) with
  | None => None
  | Some d =>
      if passes filters d
      then Some {| doc := d; score := lunr_score r; matchData := lunr_matchData r |}
      else None
  end.

Fixpoint non_null {B} (l : list (option B)) : list B :=
  match l with
  | [] => []
  | Some x :: l' => x :: non_null l'
  | None :: l' => non_null l'
  end.

Definition keywordSearchResults (idx : LunrIndex) (kb : KnowledgeBase)
  (trimmedQuery : jsstring) (filters : option SearchFilters) (limit : nat)
  : list SearchResult :=
  let keywordResults := lunr_search idx trimmedQuery in
  let mappedResults := map (to_result kb filters) (firstn (limit * 3) keywordResults) in
  firstn (limit * 2) (non_null mappedResults).

(** The [Map<string, SearchResult>] of the hybrid branch, in insertion
    order. *)
Definition combined_map : Type := list (jsstring * SearchResult).

Fixpoint get (key : jsstring) (m : combined_map) : option SearchResult :=
  match m with
  | [] => None
  | (k, v) :: m' => if str_eqb k key then Some v else get key m'
  end.

(** [{ ...result, score: s }] *)
Definition with_score (s : Q) (r : SearchResult) : SearchResult :=
  {| doc := doc r; score := s; matchData := matchData r |}.

(** [existing.score = s] on the entry under [key]. *)
Fixpoint set_score (key : jsstring) (s : Q) (m : combined_map) : combined_map :=
  match m with
  | [] => []
  | (k, v) :: m' =>
      if str_eqb k key
      then (k, with_score s v) :: m'
      else (k, v) :: set_score key s m'
  end.

(** One call of the [forEach] callbacks: [weight] is 0.6 for a keyword
    result and 0.4 for a semantic one, [divisor] 1.6 and 1.4. *)
Definition add_weighted (weight divisor : Q) (combined : combined_map)
  (result : SearchResult) : combined_map :=
  let key := id (doc result) in
  match get key combined with
  | Some existing =>
      set_score key ((score existing + score result * weight) / divisor)%Q combined
  | None =>
      combined ++ [(key, with_score (score result * weight)%Q result)]
  end.

Definition add_keyword : combined_map -> SearchResult -> combined_map :=
  add_weighted 0.6 1.6.

Definition add_semantic : combined_map -> SearchResult -> combined_map :=
  add_weighted 0.4 1.4.

Definition combine (keywordResults semanticResults : list SearchResult)
  : combined_map :=
  fold_left add_semantic semanticResults (fold_left add_keyword keywordResults []).

Definition hybridResults (keywordResults semanticResults : list SearchResult)
  (limit : nat) : list SearchResult :=
  firstn limit (sort_desc score (map snd (combine keywordResults semanticResults))).

(** [query.trim().split(/\s+/).filter((word) => word.length > 0)] *)
Definition query_words (trimmedQuery : jsstring) : list jsstring :=
  filter (fun word => 0 <? length word) (split (plus space) trimmedQuery).

Definition search (st : engine) (query : jsstring)
  (filters : option SearchFilters) (limit : nat) (mode : SearchMode)
  : SearchError + list SearchResult :=
  match searchIndex st, kbData st with
  | Some idx, Some kb =>
      let trimmedQuery := trim query in
      match trimmedQuery with
      | [] => inr []
      | _ :: _ =>
          if length (query_words trimmedQuery) <? 2 then inl TooFewWords
          else
            let keywordResults :=
              keywordSearchResults idx kb trimmedQuery filters limit in
            (* semantic search, if embeddings are available *)
            let semantic_part : SearchError + list SearchResult :=
              match mode with
              | keyword => inr []
              | semantic | hybrid =>
                  if negb (hasEmbeddings kb) then
                    match mode with
                    | semantic => inl EmbeddingsRequired
                    | _ => inr []
                    end
                  else
                    match semanticSearch trimmedQuery kb filters limit with
                    | inr results => inr results
                    | inl e =>
                        match mode with
                        | semantic => inl e
                        | _ => inr []
                        end
                    end
              end in
            match semantic_part with
            | inl e => inl e
            | inr semanticResults =>
                match mode with
                | keyword => inr (firstn limit keywordResults)
                | semantic => inr (firstn limit semanticResults)
                | hybrid => inr (hybridResults keywordResults semanticResults limit)
                end
            end
      end
  | _, _ => inl NotInitialized
  end.

(** ** The semantic path as the specification words it *)



(** The entry that one insertion leaves under the id of its result. *)
Definition merged (weight divisor : Q) (existing : option SearchResult)
  (result : SearchResult) : SearchResult :=
  match existing with
  | Some e => with_score ((score e + score result * weight) / divisor)%Q e
  | None => with_score (score result * weight)%Q result
  end.

(** The lookup of a result by document id. *)
Definition result_for (key : jsstring) (results : list SearchResult)
  : option SearchResult :=
  find (fun r => str_eqb (id (doc r)) key) results.

End Engine.

End Search.

(* ===================================================================== *)
(** * The hybrid arithmetic in binary64 *)
(* ===================================================================== *)

(** The two assignments of the hybrid branch on the numbers of JavaScript
    themselves, IEEE 754 binary64, to check a worked value against the
    rounding that the rational model leaves out.  The literals denote the
    nearest binary64 values, as they do in the source. *)
Module Binary64.

Import Floats.

#[local] Set Warnings "-inexact-float".

(** [result.score * weight], the score stored under a fresh id. *)
Definition fresh (weight score : float) : float := PrimFloat.mul score weight.

(** [(existing.score + result.score * weight) / divisor] *)
Definition recomputed (weight divisor existing score : float) : float :=
  PrimFloat.div (PrimFloat.add existing (PrimFloat.mul score weight)) divisor.

(** A keyword insertion followed by a semantic insertion under its id. *)
Definition keyword_then_semantic (keywordScore semanticScore : float) : float :=
  recomputed 0.4%float 1.4%float (fresh 0.6%float keywordScore) semanticScore.

Definition worked_example : float := keyword_then_semantic 0.8%float 0.6%float.

(** The value that the specification gives for the worked example, and
    bounds around the value of the code. *)
Definition stated_value : float := 0.4286%float.
Definition lower_bound : float := 0.5142%float.
Definition upper_bound : float := 0.5143%float.

End Binary64.

(* ===================================================================== *)
(** * Loading and caching: [src/lib/search/kb-loader.ts] and
      [initializeIndex] of [src/lib/search/search-engine.ts] *)
(* ===================================================================== *)

Module Loader.

(** What [response.json()] yields: the cast [data as KnowledgeBase] is
    unchecked, so the cached value may lack [meta], [docs] or [index]. *)
Inductive payload : Type :=
| Incomplete : payload
| Complete : KnowledgeBase -> payload.

Inductive body : Type :=
| NotJson : body
| Json : payload -> body.

(** What [fetch(path)] does. *)
Inductive response : Type :=
| NetworkError : response
| Status : bool -> body -> response.   (* [response.ok] and the body *)

(** The server: the responses for [/kb.min.json] and [/kb.json]. *)
Record server : Type := {
  min_file : response;
  full_file : response
}.

Inductive source : Type := KB_MIN_PATH | KB_PATH.

Section Runtime.

Variable LunrIndex : Type.

(** [lunr.Index.load(JSON.parse(blob))]; [None] when it throws. *)
Variable lunr_load : jsstring -> option LunrIndex.

(** The module-level variables of the two files, and three counters kept
    by the collaborators: the requests issued by [fetch], the bodies parsed
    by [response.json()] and the indexes built by [lunr.Index.load]. *)
Record world : Type := {
  cachedKB : option payload;
  searchIndex : option LunrIndex;
  kbData : option payload;
  fetched : list source;
  parsed : nat;
  index_loads : nat
}.

Definition initial : world :=
  {| cachedKB := None; searchIndex := None; kbData := None;
     fetched := []; parsed := 0; index_loads := 0 |}.

(** Where a call of [loadKB] is suspended.  A call runs without
    interruption from one [await] to the next. *)
Inductive load_point : Type :=
| LoadStart                  (* called, not yet run *)
| AwaitFetchMin              (* [await fetch(KB_MIN_PATH)] *)
| AwaitJsonMin (b : body)    (* [await response.json()], minified file *)
| AwaitFetchFull             (* [await fetch(KB_PATH)] *)
| AwaitJsonFull (b : body).  (* [await response.json()], readable file *)

Inductive load_outcome : Type :=
| Pending (at_ : load_point)
| Resolved (p : payload)
| LoadFailed.                  (* 'Failed to load knowledge base: ...' *)

(** Where a call of [initializeIndex] is suspended. *)
Inductive task : Type :=
| Start                      (* called, not yet run *)
| InLoad (at_ : load_point)  (* inside [loadKB] *)
| AwaitLoad (p : payload)    (* [await loadKB()], the promise resolved *)
| Finished
| Rejected.

Definition with_fetch (src : source) (w : world) : world :=
  {| cachedKB := cachedKB w; searchIndex := searchIndex w; kbData := kbData w;
     fetched := fetched w ++ [src]; parsed := parsed w;
     index_loads := index_loads w |}.

Definition with_parse (w : world) : world :=
  {| cachedKB := cachedKB w; searchIndex := searchIndex w; kbData := kbData w;
     fetched := fetched w; parsed := S (parsed w);
     index_loads := index_loads w |}.

Definition with_cache (p : payload) (w : world) : world :=
  {| cachedKB := Some p; searchIndex := searchIndex w; kbData := kbData w;
     fetched := fetched w; parsed := parsed w; index_loads := index_loads w |}.

(** The [catch] of the outer [try]: fall back to the readable file. *)
Definition fallback (w : world) : world * load_outcome :=
  (with_fetch KB_PATH w, Pending AwaitFetchFull).

(** The next uninterrupted stretch of a call of [loadKB]. *)
Definition loadKB (srv : server) (w : world) (at_ : load_point)
  : world * load_outcome :=
  match at_ with
  | LoadStart =>
      match cachedKB w with
      | Some p => (w, Resolved p)
      | None => (with_fetch KB_MIN_PATH w, Pending AwaitFetchMin)
      end
  | AwaitFetchMin =>
      match min_file srv with
      | Status true b => (w, Pending (AwaitJsonMin b))
      | _ => fallback w
      end
  | AwaitJsonMin b =>
      match b with
      | Json p =>
          let w' := with_cache p (with_parse w) in
          match p with
          | Complete _ => (w', Resolved p)
          | Incomplete => fallback w'
          end
      | NotJson => fallback (with_parse w)
      end
  | AwaitFetchFull =>
      match full_file srv with
      | Status true b => (w, Pending (AwaitJsonFull b))
      | _ => (w, LoadFailed)
      end
  | AwaitJsonFull b =>
      match b with
      | Json p =>
          let w' := with_cache p (with_parse w) in
          match p with
          | Complete _ => (w', Resolved p)
          | Incomplete => (w', LoadFailed)
          end
      | NotJson => (with_parse w, LoadFailed)
      end
  end.

Definition after_load (o : load_outcome) : task :=
  match o with
  | Pending at_ => InLoad at_
  | Resolved p => AwaitLoad p
  | LoadFailed => Rejected
  end.

(** The next uninterrupted stretch of a call of [initializeIndex].  An
    incomplete payload has no index to parse. *)
Definition initializeIndex (srv : server) (w : world) (t : task) : world * task :=
  match t with
  | Start =>
      match searchIndex w, kbData w with
      | Some _, Some _ => (w, Finished)
      | _, _ => let '(w', o) := loadKB srv w LoadStart in (w', after_load o)
      end
  | InLoad at_ => let '(w', o) := loadKB srv w at_ in (w', after_load o)
  | AwaitLoad p =>
      let w' := {| cachedKB := cachedKB w; searchIndex := searchIndex w;
                   kbData := Some p; fetched := fetched w; parsed := parsed w;
                   index_loads := index_loads w |} in
      match p with
      | Complete kb =>
          match lunr_load (lunrIndex (index kb)) with
          | Some idx =>
              ({| cachedKB := cachedKB w; searchIndex := Some idx;
                  kbData := Some p; fetched := fetched w; parsed := parsed w;
                  index_loads := S (index_loads w) |},
               Finished)
          | None => (w', Rejected)
          end
      | Incomplete => (w', Rejected)
      end
  | Finished => (w, Finished)
  | Rejected => (w, Rejected)
  end.

(** [clearKBCache] *)
Definition clearKBCache (w : world) : world :=
  {| cachedKB := None; searchIndex := searchIndex w; kbData := kbData w;
     fetched := fetched w; parsed := parsed w; index_loads := index_loads w |}.

(** The event loop: the pending calls of [initializeIndex] (one for each
    call of [search], [getKBMeta], ...) and the order in which they are
    resumed.  [run srv schedule (w, tasks)] resumes, for each index of the
    schedule in turn, the call at that index. *)
Fixpoint update {B} (i : nat) (x : B) (l : list B) : list B :=
  match l, i with
  | [], _ => []
  | _ :: l', O => x :: l'
  | y :: l', S i' => y :: update i' x l'
  end.

Definition step (srv : server) (st : world * list task) (i : nat)
  : world * list task :=
  let '(w, tasks) := st in
  match nth_error tasks i with
  | Some t => let '(w', t') := initializeIndex srv w t in (w', update i t' tasks)
  | None => st
  end.

Definition run (srv : server) (schedule : list nat) (st : world * list task)
  : world * list task :=
  fold_left (step srv) schedule st.

(** One call run on its own: it ends within six stretches. *)
Definition run_alone (srv : server) (w : world) : world * task :=
  let '(w1, t1) := initializeIndex srv w Start in
  let '(w2, t2) := initializeIndex srv w1 t1 in
  let '(w3, t3) := initializeIndex srv w2 t2 in
  let '(w4, t4) := initializeIndex srv w3 t3 in
  let '(w5, t5) := initializeIndex srv w4 t4 in
  initializeIndex srv w5 t5.

End Runtime.

End Loader.

(* ===================================================================== *)
(** * Concrete inputs *)
(* ===================================================================== *)

Module Samples.

Import SecretScan Chunking KbSchema Search Loader.


(** A token of twenty distinct letters, grouped by hyphens. *)
Definition hyphenated_token : jsstring := lit "abcd-efgh-ijkl-mnop-qrst".


(** A text file of 3001 characters: a letter, 2999 spaces, a letter. *)
Definition padded_text : jsstring := lit "a" ++ repeat " "%char 2999 ++ lit "b".

(** A stand-in for the SHA-256 digest in hexadecimal. *)
Definition constant_digest (_ : jsstring) : jsstring :=
  lit "e3b0c44298fc1c149afbf4c8996fb92427ae41e4649b934ca495991b7852b855".

(** An artifact with one document and a vector stored under an id that no
    document has. *)
Definition one_doc : KBDocument :=
  {| id := lit "repo:README.md:0"; repo := lit "repo"; path := lit "README.md";
     lang := lit "markdown"; loc := {| startLine := 1; endLine := 1 |};
     title := lit "Title"; contentExcerpt := lit "# Title";
     tags := []; hash := lit "e3b0c44298fc1c14"; pullRequest := None |}.

Definition some_meta (n : Z) : KBMeta :=
  {| generatedAt := lit "2026-01-01T00:00:00.000Z"; sourceScope := public_only;
     repoCount := 1; docCount := n; version := lit "unknown" |}.

Definition dangling_vector_kb : KnowledgeBase :=
  {| meta := some_meta 1;
     docs := [one_doc];
     index := {| lunrIndex := lit "{}";
                 embeddingsLite := Some [(lit "repo:deleted.md:0", [1; 0]%Q)] |} |}.

(** Stand-ins for [JSON.stringify] and [path.join]. *)
Definition tiny_json (_ : KnowledgeBase) : jsstring := lit "{}".
Definition slash_join (dir name : jsstring) : jsstring := dir ++ lit "/" ++ name.

(** Stand-ins for the collaborators of the retrieval engine.  The index
    is the ranked list that lunr returns for every query; the embedding
    backend maps every text to the unit vector (1, 0); the square root is
    exact on quotients of perfect squares. *)
Definition fixed_ranking (idx : list LunrResult) (_ : jsstring) : list LunrResult := idx.
Definition unit_embedding (_ : jsstring) : option (list Q) := Some [1; 0]%Q.
Definition no_backend (_ : jsstring) : option (list Q) := None.
Definition exact_sqrt (q : Q) : Q := Z.sqrt (Qnum q) # Pos.sqrt (Qden q).

Definition hit (d : KBDocument) (s : Q) : LunrResult :=
  {| ref := id d; lunr_score := s; lunr_matchData := None |}.



Definition kb_of (ds : list KBDocument)
  (vectors : option (list (jsstring * list Q))) : KnowledgeBase :=
  {| meta := some_meta (Z.of_nat (length ds)); docs := ds;
     index := {| lunrIndex := lit "{}"; embeddingsLite := vectors |} |}.

Definition loaded (ranking : list LunrResult) (kb : KnowledgeBase)
  : engine (list LunrResult) :=
  {| Search.searchIndex := Some ranking; Search.kbData := Some kb |}.

Definition result_of (d : KBDocument) (s : Q) : SearchResult :=
  {| doc := d; score := s; matchData := None |}.

(** One document, ranked by lunr with score 0.8, whose vector has cosine
    similarity 0.6 with the query vector. *)
Definition fusion_kb : KnowledgeBase :=
  kb_of [one_doc] (Some [(id one_doc, [0.6; 0.8]%Q)]).

Definition fusion_engine : engine (list LunrResult) :=
  loaded [hit one_doc 0.8] fusion_kb.




(** The retrieval engine with these collaborators. *)
Definition run_search := @Search.search (list LunrResult) fixed_ranking
                           unit_embedding exact_sqrt.

Definition two_words : jsstring := lit "hello world".

(** A server that delivers the artifact under both names, and an index
    loader that keeps the blob as it is. *)
Definition serving (kb : KnowledgeBase) : server :=
  {| min_file := Status true (Json (Complete kb));
     full_file := Status true (Json (Complete kb)) |}.

Definition keep_blob (blob : jsstring) : option jsstring := Some blob.

(** Two calls that are both started before either is resumed, as the
    [Promise.all] of the search hook starts its calls, and then resumed in
    turn until both have ended. *)
Definition two_calls : list task := [Start; Start].
Definition in_turn : list nat := [0; 1; 0; 1; 0; 1; 0; 1].

(** The six calls of the search hook ([getKBMeta], [getRepos],
    [getLanguages], [getTags], [getFileTypes], [hasEmbeddings]). *)
Definition six_calls : list task := repeat Start 6.
Definition six_in_turn : list nat :=
  concat (repeat [0; 1; 2; 3; 4; 5] 4).

End Samples.

(* ===================================================================== *)
(** * Properties of the redactor *)
(* ===================================================================== *)

(** ** The entropy test *)

Section EntropyProperties.

Import Reals Lra SecretScan SecretScan.Real.
Local Open Scope R_scope.

Lemma ln_2_pos : 0 < ln 2.
Proof. pose proof ln_lt_2. lra. Qed.

Lemma bump_total c freq : total (bump c freq) = S (total freq).
Proof.
  induction freq as [|[d n] freq IH]; simpl; [reflexivity|].
  destruct (Ascii.eqb d c); simpl; [reflexivity|]. rewrite IH. lia.
Qed.

Lemma bump_positive c freq :
  Forall (fun e => (1 <= snd e)%nat) freq ->
  Forall (fun e => (1 <= snd e)%nat) (bump c freq).
Proof.
  induction 1 as [|[d n] freq Hd Hf IH]; simpl.
  - repeat constructor.
  - destruct (Ascii.eqb d c); constructor; simpl in *; auto; lia.
Qed.

Lemma counts_from s : forall freq,
  Forall (fun e => (1 <= snd e)%nat) freq ->
  total (fold_left (fun f c => bump c f) s freq) = (length s + total freq)%nat
  /\ Forall (fun e => (1 <= snd e)%nat) (fold_left (fun f c => bump c f) s freq).
Proof.
  induction s as [|c s IH]; intros freq H; simpl; [auto|].
  destruct (IH (bump c freq) (@bump_positive c freq H)) as [E F].
  split; [|exact F]. rewrite E, bump_total. lia.
Qed.

(** The counts are positive and add up to the length of the string. *)
Lemma char_counts_total s :
  total (char_counts s) = length s
  /\ Forall (fun e => (1 <= snd e)%nat) (char_counts s).
Proof.
  destruct (@counts_from s []) as [E F]; [constructor|].
  split; [|exact F]. unfold char_counts. rewrite E. simpl. lia.
Qed.

(** The logarithm of the product of the integer test. *)
Lemma product_fold freq : forall acc,
  (0 < acc)%Z ->
  Forall (fun e => (1 <= snd e)%nat) freq ->
  (0 < fold_left (fun acc '(_, c) => (acc * Z.of_nat c ^ (2 * Z.of_nat c))%Z)
         freq acc)%Z
  /\ ln (IZR (fold_left
               (fun acc '(_, c) => (acc * Z.of_nat c ^ (2 * Z.of_nat c))%Z)
               freq acc))
     = ln (IZR acc) + 2 * weighted_logs freq.
Proof.
  induction freq as [|[d c] freq IH]; intros acc Hacc Hpos.
  - simpl. split; [exact Hacc | lra].
  - inversion Hpos as [|? ? Hc Hrest]; subst. simpl in Hc.
    assert (Hp : (0 < Z.of_nat c ^ (2 * Z.of_nat c))%Z)
      by (apply Z.pow_pos_nonneg; lia).
    destruct (IH (acc * Z.of_nat c ^ (2 * Z.of_nat c))%Z) as [Hprod Hln];
      [lia | exact Hrest |].
    cbn [fold_left weighted_logs fold_right snd].
    split; [exact Hprod|]. rewrite Hln.
    replace (2 * Z.of_nat c)%Z with (Z.of_nat (2 * c)) by lia.
    rewrite mult_IZR, <- pow_IZR, <- INR_IZR_INZ.
    assert (0 < INR c) by (apply lt_0_INR; lia).
    rewrite ln_mult; [| now apply IZR_lt | now apply pow_lt].
    rewrite ln_pow by assumption. rewrite mult_INR. simpl INR.
    unfold weighted_logs. ring.
Qed.

(** The loop of [calculateEntropy] in closed form. *)
Lemma entropy_fold (n : nat) freq : forall entropy,
  (0 < n)%nat ->
  Forall (fun e => (1 <= snd e)%nat) freq ->
  fold_left (fun entropy '(_, count) =>
               let p := INR count / INR n in entropy - p * log2 p) freq entropy
  = entropy - (weighted_logs freq - INR (total freq) * ln (INR n)) / (INR n * ln 2).
Proof.
  intros entropy n_positive.
  pose proof ln_2_pos as H2. pose proof (lt_0_INR n n_positive) as Hn.
  revert entropy.
  induction freq as [|[d c] freq IH]; intros entropy Hpos; simpl.
  - field. split; lra.
  - inversion Hpos as [|? ? Hc Hrest]; subst. simpl in Hc.
    rewrite (IH _ Hrest). unfold log2.
    assert (Hc0 : 0 < INR c) by (apply lt_0_INR; lia).
    assert (Hln : ln (INR c / INR n) = ln (INR c) - ln (INR n)).
    { unfold Rdiv. rewrite ln_mult, ln_Rinv; try assumption; [lra|].
      now apply Rinv_0_lt_compat. }
    rewrite Hln, plus_INR. field. split; lra.
Qed.

(** The integer test decides [calculateEntropy(str) > 3.5] over the real
    numbers. *)
Lemma entropy_test_exact s :
  (1 <= length s)%nat ->
  entropy_above_threshold s = true <-> calculateEntropy s > 3.5.
Proof.
  intros Hlen. set (n := length s).
  destruct (char_counts_total s) as [Htotal Hpos].
  pose proof ln_2_pos as H2.
  assert (Hn : 0 < INR n) by (apply lt_0_INR; lia).
  unfold calculateEntropy. fold n.
  rewrite (@entropy_fold n) by (assumption || (unfold n; lia)).
  rewrite Htotal. fold n.
  unfold entropy_above_threshold. fold n.
  destruct (@product_fold (char_counts s) 1%Z) as [Hprod Hln];
    [lia | exact Hpos |].
  set (product := fold_left _ (char_counts s) 1%Z) in *.
  rewrite ln_1 in Hln.
  assert (Hleft : ln (IZR (2 ^ (7 * Z.of_nat n) * product)) =
                  INR (7 * n) * ln 2 + 2 * weighted_logs (char_counts s)).
  { replace (7 * Z.of_nat n)%Z with (Z.of_nat (7 * n)) by lia.
    rewrite mult_IZR, <- pow_IZR.
    rewrite ln_mult; [| apply pow_lt; lra | now apply IZR_lt].
    rewrite ln_pow by lra. rewrite Hln. lra. }
  assert (Hright : ln (IZR (Z.of_nat n ^ (2 * Z.of_nat n))) =
                   INR (2 * n) * ln (INR n)).
  { replace (2 * Z.of_nat n)%Z with (Z.of_nat (2 * n)) by lia.
    rewrite <- pow_IZR, <- INR_IZR_INZ. now apply ln_pow. }
  assert (Hlp : (0 < 2 ^ (7 * Z.of_nat n) * product)%Z).
  { apply Z.mul_pos_pos; [apply Z.pow_pos_nonneg; lia | exact Hprod]. }
  assert (Hrp : (0 < Z.of_nat n ^ (2 * Z.of_nat n))%Z)
    by (apply Z.pow_pos_nonneg; lia).
  rewrite Z.ltb_lt.
  set (T := weighted_logs (char_counts s)) in *.
  assert (Hkey : ln (IZR (2 ^ (7 * Z.of_nat n) * product))
                 < ln (IZR (Z.of_nat n ^ (2 * Z.of_nat n)))
                 <-> 0 - (T - INR n * ln (INR n)) / (INR n * ln 2) > 3.5).
  { rewrite Hleft, Hright, !mult_INR. simpl INR.
    assert (HD : 0 < INR n * ln 2) by (apply Rmult_lt_0_compat; assumption).
    replace (0 - (T - INR n * ln (INR n)) / (INR n * ln 2))
      with ((INR n * ln (INR n) - T) / (INR n * ln 2)) by (field; split; lra).
    split; intros H.
    - apply Rlt_gt. apply (Rmult_lt_reg_r (INR n * ln 2)); [exact HD|].
      unfold Rdiv. rewrite Rmult_assoc, Rinv_l by lra. lra.
    - apply Rgt_lt in H. apply (Rmult_lt_compat_r (INR n * ln 2)) in H; [|exact HD].
      unfold Rdiv in H. rewrite Rmult_assoc, Rinv_l in H by lra. lra. }
  rewrite <- Hkey. split; intros H.
  - apply ln_increasing; [now apply IZR_lt | now apply IZR_lt].
  - apply lt_IZR. apply ln_lt_inv; [now apply IZR_lt | now apply IZR_lt | exact H].
Qed.

(** [isHighEntropySecret] is the test of the source over the real
    numbers. *)
Lemma isHighEntropySecret_exact s :
  isHighEntropySecret s = true <->
  (16 <= length s)%nat /\ calculateEntropy s > 3.5.
Proof.
  unfold isHighEntropySecret.
  destruct (Nat.ltb_spec (length s) 16) as [Hshort|Hlong].
  - split; [discriminate | intros [H _]; lia].
  - rewrite entropy_test_exact by lia. tauto.
Qed.

End EntropyProperties.

Section RedactorProperties.

Import Rdefinitions SecretScan Samples.





(** ** Replacing a literal *)

Lemma rmatch_seq_cons {X} r rs s (k : jsstring -> option X) :
  rmatch (seq_of (r :: rs)) s k =
  rmatch r s (fun s' => rmatch (seq_of rs) s' k).
Proof. destruct rs; reflexivity. Qed.

(** A literal matches exactly where the string starts with it. *)
Lemma rmatch_literal {X} p : forall s (k : jsstring -> option X),
  rmatch (literal p) s k =
  if starts_with p s then k (skipn (length p) s) else None.
Proof.
  unfold literal.
  induction p as [|c p IH]; intros s k; [reflexivity|].
  cbn [map]. rewrite rmatch_seq_cons. unfold chr at 1.
  destruct s as [|d s]; [reflexivity|]. simpl.
  destruct (Ascii.eqb c d); [apply IH | reflexivity].
Qed.

Lemma indexOf_from_none p : forall s i,
  indexOf_from i p s = None ->
  starts_with p s = false
  /\ match s with [] => True | _ :: s' => indexOf_from (S i) p s' = None end.
Proof.
  intros s i H. destruct s as [|c s]; simpl in H.
  - destruct (starts_with p []); [discriminate | auto].
  - destruct (starts_with p (c :: s)); [discriminate | auto].
Qed.

Lemma scan_literal_absent p : forall s i,
  indexOf_from i p s = None ->
  scan_from (literal p) 0 s = map Skipped s.
Proof.
  induction s as [|c s IH]; intros i H;
    destruct (indexOf_from_none _ _ _ H) as [Hs Hrest];
    cbn [scan_from]; unfold match_here; rewrite rmatch_literal, Hs.
  - reflexivity.
  - cbn [map]. f_equal. now apply (IH (S i)).
Qed.

Lemma replace_pieces_skipped by_ s : replace_pieces by_ (map Skipped s) = s.
Proof. induction s as [|c s IH]; simpl; [reflexivity | now rewrite IH]. Qed.

(** Replacing a literal that does not occur changes nothing. *)
Lemma replace_absent_literal p by_ s :
  includes p s = false -> replace_all (literal p) by_ s = s.
Proof.
  unfold includes, indexOf, replace_all, scan.
  destruct (indexOf_from 0 p s) eqn:E; [discriminate|]. intros _.
  rewrite (scan_literal_absent _ _ _ E). apply replace_pieces_skipped.
Qed.

(** The step of the loop over the words, on a word whose stripped form is
    a high-entropy string that does not occur in the text redacted so far:
    the finding is counted and the text stays as it is. *)
Lemma word_step_without_effect has redacted found word :
  isHighEntropySecret (filter is_alnum word) = true ->
  includes (filter is_alnum word) redacted = false ->
  word_step (has, redacted, found) word
  = (true, redacted, count_finding HIGH_ENTROPY found).
Proof.
  intros Hhigh Habsent. unfold word_step. rewrite Hhigh.
  assert (Hlen : (16 <=? length (filter is_alnum word)) = true).
  { unfold isHighEntropySecret in Hhigh.
    destruct (Nat.ltb_spec (length (filter is_alnum word)) 16);
      [discriminate | now apply Nat.leb_le]. }
  rewrite Hlen. simpl. now rewrite replace_absent_literal.
Qed.




(** C10: for the text [abcd-efgh-ijkl-mnop-qrst] the scan reports one
    high-entropy finding, found on the form of the token stripped of its
    hyphens (twenty characters with an entropy above 3.5), which does not
    occur in the text; the text is returned unchanged. *)
Theorem C10_high_entropy_finding_leaves_text_unmasked :
  exists (text : jsstring) (n : nat),
    let r := scanAndRedact text in
    let cleaned := filter is_alnum text in
    In text (split (plus space) text) /\
    (16 <= length cleaned /\ (Real.calculateEntropy cleaned > 3.5)%R) /\
    isHighEntropySecret cleaned = true /\
    includes cleaned text = false /\
    hasSecrets r = true /\
    In (HIGH_ENTROPY, n) (secretsFound r) /\ 0 < n /\
    redactedContent r = text.
Proof.
  exists hyphenated_token, 1. cbv zeta.
  assert (H : isHighEntropySecret (filter is_alnum hyphenated_token) = true)
    by (vm_compute; reflexivity).
  split; [vm_compute; auto|].
  split; [apply isHighEntropySecret_exact; exact H|].
  split; [exact H|].
  split; [vm_compute; reflexivity|].
  split; [vm_compute; reflexivity|].
  split; [vm_compute; auto|].
  split; [lia | vm_compute; reflexivity].
Qed.

End RedactorProperties.

(* ===================================================================== *)
(** * Properties of the chunker *)
(* ===================================================================== *)

Section ChunkerProperties.

Import Chunking Samples.

Lemma trimStart_length s : length (trimStart s) <= length s.
Proof.
  induction s as [|c s IH]; simpl; [lia|].
  destruct (is_space c); simpl; lia.
Qed.

Lemma trim_length s : length (trim s) <= length s.
Proof.
  unfold trim, trimEnd. rewrite length_rev.
  etransitivity; [apply trimStart_length|].
  rewrite length_rev. apply trimStart_length.
Qed.

Lemma split_char_nonempty sep s : 1 <= length (split_char sep s).
Proof.
  induction s as [|c s IH]; simpl; [lia|].
  destruct (Ascii.eqb c sep); simpl; [lia|].
  destruct (split_char sep s); simpl; lia.
Qed.

Lemma lit_inj a b : lit a = lit b -> a = b.
Proof.
  unfold lit. intros H.
  rewrite <- (string_of_list_ascii_of_string a), H.
  apply string_of_list_ascii_of_string.
Qed.

Lemma show_nat_inj i j : show_nat i = show_nat j -> i = j.
Proof.
  unfold show_nat. intros H. apply lit_inj in H.
  apply DecimalNat.Unsigned.to_uint_inj.
  pose proof (DecimalString.NilEmpty.usu (Nat.to_uint i)) as Hi.
  pose proof (DecimalString.NilEmpty.usu (Nat.to_uint j)) as Hj.
  rewrite H in Hi. congruence.
Qed.

Lemma doc_id_inj repo relativePath i j :
  doc_id repo relativePath i = doc_id repo relativePath j -> i = j.
Proof.
  unfold doc_id. intros H.
  repeat apply app_inv_head in H. now apply show_nat_inj.
Qed.

Variable sha256_hex : jsstring -> jsstring.

(** What the loop of [chunkFile] guarantees for each document it emits,
    whatever the chunks are. *)
Lemma documents_from_each content repo relativePath lang options chunks :
  forall i lineOffset d,
    In d (documents_from sha256_hex content repo relativePath lang options
            i lineOffset chunks) ->
    (1 <= length (contentExcerpt d) <= max_of options)
    /\ (exists k, i <= k /\ id d = doc_id repo relativePath k)
    /\ lineOffset < startLine (loc d)
    /\ startLine (loc d) <= endLine (loc d).
Proof.
  induction chunks as [|c chunks IH]; intros i off d Hin; simpl in Hin.
  - contradiction.
  - destruct (length (trim c) =? 0) eqn:Eblank.
    { apply IH in Hin. destruct Hin as (Hlen & (k & Hk & Hid) & Hoff & Hle).
      repeat split; try lia; try assumption. exists k. split; [lia | assumption]. }
    destruct (length (trim (substring_to (max_of options) c)) =? 0) eqn:Eexc.
    { apply IH in Hin. destruct Hin as (Hlen & (k & Hk & Hid) & Hoff & Hle).
      repeat split; try lia; try assumption. exists k. split; [lia | assumption]. }
    set (before := match indexOf c content with
                   | Some n => substring_to n content
                   | None => []
                   end) in *.
    pose proof (split_char_nonempty newline before) as Hb.
    pose proof (split_char_nonempty newline c) as Hc.
    fold (lines_of before) in Hb. fold (lines_of c) in Hc.
    destruct Hin as [<- | Hin].
    + simpl. apply Nat.eqb_neq in Eexc.
      pose proof (trim_length (substring_to (max_of options) c)) as Ht.
      unfold substring_to in *. pose proof (firstn_le_length (max_of options) c).
      repeat split; try lia. exists i. split; [lia | reflexivity].
    + apply IH in Hin. destruct Hin as (Hlen & (k & Hk & Hid) & Hoff & Hle).
      repeat split; try lia. exists k. split; [lia | assumption].
Qed.

(** The documents of one file come with distinct ids, and each one ends
    before the next one starts. *)
Lemma documents_from_ordered content repo relativePath lang options chunks :
  forall i lineOffset,
    let ds := documents_from sha256_hex content repo relativePath lang options
                i lineOffset chunks in
    NoDup (map id ds)
    /\ StronglySorted (fun a b => endLine (loc a) < startLine (loc b)) ds.
Proof.
  induction chunks as [|c chunks IH]; intros i off; simpl.
  - split; constructor.
  - destruct (length (trim c) =? 0); [apply IH|].
    destruct (length (trim (substring_to (max_of options) c)) =? 0); [apply IH|].
    match goal with
    | |- context [documents_from _ _ _ _ _ _ (S i) ?e chunks] => set (endL := e)
    end.
    destruct (IH (S i) endL) as [Hnd Hss].
    split.
    + simpl. constructor; [|exact Hnd].
      intros Hin. apply in_map_iff in Hin. destruct Hin as (d & Hid & Hd).
      apply documents_from_each in Hd. destruct Hd as (_ & (k & Hk & Hidk) & _).
      rewrite Hidk in Hid. apply doc_id_inj in Hid. lia.
    + constructor; [exact Hss|].
      apply Forall_forall. intros d Hd.
      apply documents_from_each in Hd. simpl. tauto.
Qed.

(** C6, as stated, fails: in a text file made of a letter, 2999 spaces and
    a letter, chunked with the default sizes, the first of the two
    documents has an excerpt of one character, below the minimum of 100. *)
Lemma C6_short_excerpt_before_the_last :
  exists d1 d2,
    chunkFile constant_digest padded_text (lit "repo") (lit "notes.txt") no_options
      = [d1; d2]
    /\ length (contentExcerpt d1) = 1
    /\ length (contentExcerpt d1) < min_of no_options.
Proof.
  eexists. eexists. split; [vm_compute; reflexivity|].
  split; [reflexivity | vm_compute; lia].
Qed.

(** C6, amended: every excerpt that the chunker produces is non-empty and
    at most [maxChunkSize] characters long. *)
Theorem C6_excerpt_nonempty_and_bounded
  (content repo relativePath : jsstring) (options : ChunkingOptions)
  (d : KBDocument) :
  In d (chunkFile sha256_hex content repo relativePath options) ->
  1 <= length (contentExcerpt d) <= max_of options.
Proof.
  unfold chunkFile. intros H. now apply documents_from_each in H.
Qed.

(** C7: the documents of one file have pairwise distinct ids, each has
    [startLine <= endLine], and each document ends on a line before the
    line on which any later document starts. *)
Theorem C7_ids_distinct_and_ranges_increasing
  (content repo relativePath : jsstring) (options : ChunkingOptions) :
  let ds := chunkFile sha256_hex content repo relativePath options in
  NoDup (map id ds)
  /\ Forall (fun d => startLine (loc d) <= endLine (loc d)) ds
  /\ StronglySorted (fun a b => endLine (loc a) < startLine (loc b)) ds.
Proof.
  unfold chunkFile.
  pose proof (documents_from_ordered content repo relativePath
                (getLanguageFromPath relativePath) options
                (chunks_of content (getLanguageFromPath relativePath) options) 0 0)
    as [Hnd Hss].
  repeat split; try assumption.
  apply Forall_forall. intros d Hd. now apply documents_from_each in Hd.
Qed.

End ChunkerProperties.

(** C6, amended, at a file. *)
Lemma C6_witness :
  exists d,
    In d (Chunking.chunkFile Samples.constant_digest (lit "# Title") (lit "repo")
            (lit "README.md") Chunking.no_options)
    /\ 1 <= length (contentExcerpt d) <= Chunking.max_of Chunking.no_options.
Proof.
  eexists. split.
  - vm_compute. left. reflexivity.
  - apply (C6_excerpt_nonempty_and_bounded Samples.constant_digest
             (lit "# Title") (lit "repo") (lit "README.md") Chunking.no_options).
    vm_compute. left. reflexivity.
Defined.

(* ===================================================================== *)
(** * Properties of artifact validation and writing *)
(* ===================================================================== *)

Section SchemaProperties.

Import KbSchema Samples.

Lemma app_nil_iff {B} (l l' : list B) : l ++ l' = [] <-> l = [] /\ l' = [].
Proof.
  split; [apply app_eq_nil | intros [-> ->]; reflexivity].
Qed.

Lemma if_empty_nil (s : jsstring) (e : jsstring) :
  (if is_empty s then [e] else []) = [] <-> s <> [].
Proof. destruct s; simpl; split; congruence. Qed.

Lemma doc_errors_nil idx d : doc_errors idx d = [] <-> doc_complete d.
Proof.
  unfold doc_errors, doc_complete.
  repeat rewrite app_nil_iff. repeat rewrite if_empty_nil. tauto.
Qed.

Lemma docs_errors_nil ds : forall idx,
  docs_errors idx ds = [] <-> Forall doc_complete ds.
Proof.
  induction ds as [|d ds IH]; intros idx; simpl.
  - split; auto.
  - rewrite app_nil_iff, doc_errors_nil, IH. split.
    + intros [? ?]. now constructor.
    + intros H. inversion H. auto.
Qed.

Lemma meta_errors_nil kb :
  meta_errors kb = [] <->
  generatedAt (meta kb) <> []
  /\ scope_known (sourceScope (meta kb)) = true
  /\ (0 <= repoCount (meta kb))%Z
  /\ docCount (meta kb) = Z.of_nat (length (docs kb)).
Proof.
  unfold meta_errors. repeat rewrite app_nil_iff. rewrite if_empty_nil.
  destruct (scope_known (sourceScope (meta kb)));
    destruct (Z.ltb_spec (repoCount (meta kb)) 0);
    destruct (Z.eqb_spec (docCount (meta kb)) (Z.of_nat (length (docs kb))));
    intuition (try congruence; try lia).
Qed.

(** What [validateKB] checks, and nothing else. *)
Lemma validateKB_valid kb :
  valid (validateKB kb) = true <->
  generatedAt (meta kb) <> []
  /\ scope_known (sourceScope (meta kb)) = true
  /\ (0 <= repoCount (meta kb))%Z
  /\ docCount (meta kb) = Z.of_nat (length (docs kb))
  /\ Forall doc_complete (docs kb)
  /\ lunrIndex (index kb) <> [].
Proof.
  unfold validateKB. simpl. rewrite Nat.eqb_eq, length_zero_iff_nil.
  repeat rewrite app_nil_iff.
  rewrite meta_errors_nil, docs_errors_nil.
  unfold index_errors. rewrite if_empty_nil. tauto.
Qed.

(** The vector map that the build assembles has no key but ids of the
    documents it was built from. *)
Lemma assign_keys key v m k :
  In k (map fst (Embedding.assign key v m)) -> k = key \/ In k (map fst m).
Proof.
  induction m as [|[k' w] m IH]; simpl.
  - intros [<-|[]]. now left.
  - destruct (str_eqb k' key) eqn:E; simpl.
    + tauto.
    + intros [<-|H]; [tauto|]. destruct (IH H); tauto.
Qed.

Lemma assign_all_keys results : forall m k,
  In k (map fst (fold_left (fun m '(k, v) => Embedding.assign k v m) results m)) ->
  In k (map fst results) \/ In k (map fst m).
Proof.
  induction results as [|[k' v] results IH]; intros m k; simpl; [tauto|].
  intros H. apply IH in H. destruct H as [H|H]; [tauto|].
  apply assign_keys in H. destruct H as [->|H]; [left; now left | now right].
Qed.

Lemma embed_batch_keys pipe batch : forall results,
  Embedding.embed_batch pipe batch = Some results ->
  map fst results = map id batch.
Proof.
  induction batch as [|d batch IH]; simpl; intros results.
  - now intros [= <-].
  - destruct (Embedding.generateEmbedding pipe _) as [embedding|]; [|discriminate].
    destruct (Embedding.embed_batch pipe batch) as [rest|]; [|discriminate].
    intros [= <-]. simpl. now rewrite (IH rest).
Qed.

Lemma embed_batches_keys pipe batchSize fuel : forall docs acc result k,
  Embedding.embed_batches pipe fuel batchSize docs acc = Some result ->
  In k (map fst result) ->
  In k (map id docs) \/ In k (map fst acc).
Proof.
  induction fuel as [|fuel IH]; intros docs acc result k; simpl.
  - intros [= <-]. tauto.
  - destruct docs as [|d docs']; [intros [= <-]; tauto|].
    set (docs := d :: docs').
    destruct (Embedding.embed_batch pipe (firstn batchSize docs)) as [r|] eqn:E;
      [|discriminate].
    intros H Hin. destruct (IH _ _ _ _ H Hin) as [Hk|Hk].
    + left. apply in_map_iff in Hk. destruct Hk as (x & <- & Hx).
      apply in_map. revert Hx. rewrite <- (firstn_skipn batchSize docs) at 2.
      intros Hx. apply in_or_app. now right.
    + apply assign_all_keys in Hk. destruct Hk as [Hk|Hk]; [|tauto].
      left. rewrite (embed_batch_keys _ _ E) in Hk.
      apply in_map_iff in Hk. destruct Hk as (x & <- & Hx).
      apply in_map. rewrite <- (firstn_skipn batchSize docs).
      apply in_or_app. now left.
Qed.

Lemma built_vector_keys_known lunr_build pipe (m : KBMeta)
  (ds : list KBDocument) (withEmbeddings : bool) :
  vector_keys_known
    {| meta := m; docs := ds;
       index := IndexBuilder.buildIndex lunr_build pipe ds withEmbeddings |} = true.
Proof.
  unfold vector_keys_known, IndexBuilder.buildIndex. simpl.
  destruct withEmbeddings; [|reflexivity].
  destruct (Embedding.generateEmbeddings pipe ds) as [vectors|] eqn:E;
    [|reflexivity].
  apply forallb_forall. intros [k v] Hin.
  apply existsb_exists.
  assert (Hk : In k (map id ds)).
  { unfold Embedding.generateEmbeddings in E.
    destruct (embed_batches_keys _ _ _ _ _ k E) as [H|[]]; [|exact H].
    apply in_map_iff. now exists (k, v). }
  apply in_map_iff in Hk. destruct Hk as (d & <- & Hd).
  exists d. split; [exact Hd|]. unfold str_eqb.
  now destruct (list_eq_dec ascii_dec (id d) (id d)).
Qed.

Variable stringify : KnowledgeBase -> jsstring.
Variable stringify_pretty : KnowledgeBase -> jsstring.
Variable path_join : jsstring -> jsstring -> jsstring.

(** C8, as stated, fails: an artifact whose vector map has a key that is
    the id of no document passes the validation and is written. *)
Lemma C8_dangling_vector_is_written :
  vector_keys_known dangling_vector_kb = false
  /\ valid (validateKB dangling_vector_kb) = true
  /\ writeKB tiny_json tiny_json slash_join dangling_vector_kb (lit "dist") []
     = (Written, [(lit "dist/kb.min.json", lit "{}"); (lit "dist/kb.json", lit "{}")]).
Proof. vm_compute. repeat split. Qed.

(** C8, amended: [writeKB] writes the two files exactly when the metadata
    is well-formed, [meta.docCount] is the number of documents, every
    document has its required fields, the text index is present and the
    serialized size is at most 20 MiB; otherwise it throws and leaves the
    file system as it was.  The ids of the text index and of the vector map
    are not compared with those of the documents. *)
Theorem C8_write_only_after_validation
  (kb : KnowledgeBase) (outputDir : jsstring) (fs : files) :
  let accepted :=
    generatedAt (meta kb) <> []
    /\ scope_known (sourceScope (meta kb)) = true
    /\ (0 <= repoCount (meta kb))%Z
    /\ docCount (meta kb) = Z.of_nat (length (docs kb))
    /\ Forall doc_complete (docs kb)
    /\ lunrIndex (index kb) <> []
    /\ (byteLength (stringify kb) <= MAX_KB_SIZE)%N in
  (accepted ->
     writeKB stringify stringify_pretty path_join kb outputDir fs
     = (Written,
        (path_join outputDir (lit "kb.min.json"), stringify kb)
        :: (path_join outputDir (lit "kb.json"), stringify_pretty kb) :: fs))
  /\ (~ accepted ->
     exists message,
       writeKB stringify stringify_pretty path_join kb outputDir fs
       = (Thrown message, fs)).
Proof.
  intros accepted. subst accepted. unfold writeKB, ensureSizeConstraint.
  pose proof (validateKB_valid kb) as Hv.
  destruct (valid (validateKB kb)); simpl.
  - destruct (N.ltb_spec MAX_KB_SIZE (byteLength (stringify kb))); simpl.
    + split.
      * intros H'. exfalso. lia.
      * intros _. eexists. reflexivity.
    + split.
      * intros _. reflexivity.
      * intros Hn. exfalso. apply Hn.
        destruct Hv as [Hv _]. specialize (Hv eq_refl). tauto.
  - split.
    + intros H'. exfalso. destruct Hv as [_ Hv].
      assert (false = true) by (apply Hv; tauto). discriminate.
    + intros _. eexists. reflexivity.
Qed.

End SchemaProperties.

(* ===================================================================== *)
(** * Properties of the retrieval engine *)
(* ===================================================================== *)

Section SearchProperties.

Import Embedding Search Samples.

Local Abbreviation rid := (fun r : SearchResult => id (doc r)).

(** ** Queries with fewer than two words *)

Lemma trimStart_head s c t : trimStart s = c :: t -> is_space c = false.
Proof.
  induction s as [|d s IH]; simpl; [discriminate|].
  destruct (is_space d) eqn:E; [exact IH|].
  intros [= <- <-]. exact E.
Qed.

Lemma trimStart_snoc l c :
  is_space c = false -> exists w, trimStart (l ++ [c]) = w ++ [c].
Proof.
  intros Hc. induction l as [|d l IH]; simpl.
  - rewrite Hc. now exists [].
  - destruct (is_space d); [exact IH|]. now exists (d :: l).
Qed.

Lemma trim_head s c t : trim s = c :: t -> is_space c = false.
Proof.
  unfold trim, trimEnd.
  destruct (trimStart s) as [|d u] eqn:E; simpl; [discriminate|].
  pose proof (@trimStart_head s d u E) as Hd.
  destruct (@trimStart_snoc (rev u) d Hd) as [w Hw]. rewrite Hw.
  rewrite rev_app_distr. simpl. now intros [= <- _].
Qed.

Lemma split_pieces_head ps : forall cur,
  cur <> [] -> exists w ws, split_pieces cur ps = w :: ws /\ w <> [].
Proof.
  assert (Hrev : forall cur : jsstring, cur <> [] -> rev cur <> []).
  { intros cur H E. apply H. now rewrite <- (rev_involutive cur), E. }
  induction ps as [|p ps IH]; intros cur Hcur; simpl.
  - eauto.
  - destruct p as [c|m]; [|eauto].
    apply IH. discriminate.
Qed.

(** A trimmed query that is not empty has at least one word. *)
Lemma query_words_nonblank c t :
  is_space c = false -> query_words (c :: t) <> [].
Proof.
  intros Hc. unfold query_words, split, scan.
  assert (E : match_here (plus space) (c :: t) = None).
  { unfold match_here, plus, space. simpl. now rewrite Hc. }
  simpl scan_from. rewrite E. simpl split_pieces.
  destruct (@split_pieces_head (scan_from (plus space) 0 t) [c])
    as (w & ws & -> & Hw); [discriminate|].
  simpl. destruct w; [congruence|]. simpl. discriminate.
Qed.

Lemma query_words_none q : query_words (trim q) = [] -> trim q = [].
Proof.
  destruct (trim q) as [|c t] eqn:E; [reflexivity|].
  intros H. exfalso. apply trim_head in E. now apply (@query_words_nonblank c t E).
Qed.

(** ** The hybrid combination *)

Lemma str_eqb_eq a b : str_eqb a b = true <-> a = b.
Proof.
  unfold str_eqb. destruct (list_eq_dec ascii_dec a b); split; congruence.
Qed.

Lemma str_eqb_refl a : str_eqb a a = true.
Proof. now apply str_eqb_eq. Qed.

Lemma str_eqb_neq a b : str_eqb a b = false <-> a <> b.
Proof.
  unfold str_eqb. destruct (list_eq_dec ascii_dec a b); split; congruence.
Qed.

Lemma get_app key m m' :
  get key (m ++ m') =
  match get key m with Some v => Some v | None => get key m' end.
Proof.
  induction m as [|[k v] m IH]; simpl; [reflexivity|].
  destruct (str_eqb k key); [reflexivity | exact IH].
Qed.

Lemma get_set_score key key' s m :
  get key' (set_score key s m) =
  if str_eqb key key' then option_map (with_score s) (get key' m)
  else get key' m.
Proof.
  induction m as [|[k v] m IH]; simpl.
  - now destruct (str_eqb key key').
  - destruct (str_eqb k key) eqn:Ek; simpl.
    + apply str_eqb_eq in Ek. subst k.
      destruct (str_eqb key key'); reflexivity.
    + destruct (str_eqb k key') eqn:Ek'; simpl.
      * apply str_eqb_eq in Ek'. subst k.
        destruct (str_eqb key key') eqn:Ekk; [|reflexivity].
        apply str_eqb_eq in Ekk. subst key'.
        rewrite str_eqb_refl in Ek. discriminate.
      * exact IH.
Qed.

Lemma get_add_weighted weight divisor m r key :
  get key (add_weighted weight divisor m r) =
  if str_eqb (rid r) key then Some (merged weight divisor (get key m) r)
  else get key m.
Proof.
  unfold add_weighted, merged.
  destruct (get (rid r) m) as [e|] eqn:E.
  - rewrite get_set_score.
    destruct (str_eqb (rid r) key) eqn:Ek; [|reflexivity].
    apply str_eqb_eq in Ek. simpl in Ek. rewrite <- Ek. simpl. rewrite E.
    reflexivity.
  - rewrite get_app. simpl.
    destruct (str_eqb (rid r) key) eqn:Ek.
    + apply str_eqb_eq in Ek. simpl in Ek. rewrite <- Ek. simpl. now rewrite E.
    + destruct (get key m); reflexivity.
Qed.

Lemma result_for_absent key l : ~ In key (map rid l) -> result_for key l = None.
Proof.
  induction l as [|r l IH]; simpl; [reflexivity|].
  intros H. destruct (str_eqb (id (doc r)) key) eqn:E.
  - apply str_eqb_eq in E. tauto.
  - apply IH. tauto.
Qed.

(** Inserting results with pairwise distinct ids: each id is merged once. *)
Lemma get_fold_add weight divisor l :
  NoDup (map rid l) ->
  forall m key,
    get key (fold_left (add_weighted weight divisor) l m) =
    match result_for key l with
    | Some r => Some (merged weight divisor (get key m) r)
    | None => get key m
    end.
Proof.
  induction l as [|r l IH]; intros Hnd m key; simpl; [reflexivity|].
  inversion Hnd as [|? ? Hnotin Hnd']; subst.
  rewrite (IH Hnd'), get_add_weighted. simpl.
  destruct (str_eqb (id (doc r)) key) eqn:E.
  - apply str_eqb_eq in E. subst key.
    now rewrite (@result_for_absent (id (doc r)) l Hnotin).
  - reflexivity.
Qed.

(** C1, amended: an insertion under a fresh id stores the score times the
    weight of its source (0.6 keyword, 0.4 semantic); an insertion under an
    id that is present stores (existing + score * weight) / (1 + weight);
    so, with distinct ids within each source and the keyword results
    inserted first, a document with keyword score [k] and semantic score
    [s] ends with (k * 0.6 + s * 0.4) / 1.4, which for 0.8 and 0.6 is
    0.72 / 1.4 = 18/35, about 0.5143. *)
Theorem C1_hybrid_running_average
  (keywordResults semanticResults : list SearchResult) (key : jsstring) :
  NoDup (map (fun r => id (doc r)) keywordResults) ->
  NoDup (map (fun r => id (doc r)) semanticResults) ->
  (forall m r,
     get (id (doc r)) (add_keyword m r) =
     Some match get (id (doc r)) m with
          | Some e => with_score ((score e + score r * 0.6) / (1 + 0.6)) e
          | None => with_score (score r * 0.6) r
          end)
  /\ (forall m r,
     get (id (doc r)) (add_semantic m r) =
     Some match get (id (doc r)) m with
          | Some e => with_score ((score e + score r * 0.4) / (1 + 0.4)) e
          | None => with_score (score r * 0.4) r
          end)
  /\ get key (combine keywordResults semanticResults) =
     match result_for key keywordResults, result_for key semanticResults with
     | Some rk, Some rs =>
         Some (with_score ((score rk * 0.6 + score rs * 0.4) / 1.4) rk)
     | Some rk, None => Some (with_score (score rk * 0.6) rk)
     | None, Some rs => Some (with_score (score rs * 0.4) rs)
     | None, None => None
     end.
Proof.
  intros HK HS. split; [|split].
  - intros m r. unfold add_keyword. rewrite get_add_weighted.
    simpl. rewrite str_eqb_refl. reflexivity.
  - intros m r. unfold add_semantic. rewrite get_add_weighted.
    simpl. rewrite str_eqb_refl. reflexivity.
  - unfold combine, add_semantic, add_keyword.
    rewrite !get_fold_add by assumption. simpl.
    destruct (result_for key keywordResults), (result_for key semanticResults);
      reflexivity.
Qed.

(** ** Sorting *)

Section SortFacts.

Variable A : Type.
Variable score_of : A -> Q.

Local Abbreviation desc := (fun a b : A => (score_of b <= score_of a)%Q).






End SortFacts.

(** ** The semantic path *)


(** ** Keyword results *)











(** ** The three modes of [search] *)

Variable LunrIndex : Type.
Variable lunr_search : LunrIndex -> jsstring -> list LunrResult.
Variable pipe : jsstring -> option (list Q).
Variable sqrt : Q -> Q.

Local Abbreviation search := (@Search.search LunrIndex lunr_search pipe sqrt).
Local Abbreviation keywordSearchResults :=
  (@Search.keywordSearchResults LunrIndex lunr_search).
Local Abbreviation semanticSearch := (@Search.semanticSearch pipe sqrt).

(** C2, amended: in each of the three modes, a query with exactly one
    whitespace-delimited token makes [search] fail with the validation
    error, and a query with no token at all (empty or whitespace only)
    makes it return the empty list without an error. *)
Theorem C2_short_query_rejected_or_empty
  (idx : LunrIndex) (kb : KnowledgeBase) (query : jsstring)
  (filters : option SearchFilters) (limit : nat) (mode : SearchMode) :
  let st := {| Search.searchIndex := Some idx; Search.kbData := Some kb |} in
  (length (query_words (trim query)) = 1 ->
     search st query filters limit mode = inl TooFewWords)
  /\ (length (query_words (trim query)) = 0 ->
     search st query filters limit mode = inr []).
Proof.
  simpl. unfold Search.search. simpl. split; intros H.
  - destruct (trim query) as [|c t] eqn:E.
    + vm_compute in H. discriminate.
    + rewrite H. reflexivity.
  - apply length_zero_iff_nil, query_words_none in H. now rewrite H.
Qed.




(** ** Hybrid mode on an artifact without vectors *)


End SearchProperties.

(** ** The retrieval engine at concrete inputs *)

Section SearchExamples.

Import Search Samples.

(** C1, as stated, fails in its example: with keyword score 0.8 and
    semantic score 0.6 for the one document, keyword inserted first, the
    combined score is 18/35 (about 0.5143), not 0.4286; in binary64
    arithmetic it lies between 0.5142 and 0.5143. *)
Lemma C1_example_score_is_not_0_4286 :
  run_search fusion_engine two_words None 20 keyword = inr [result_of one_doc 0.8]
  /\ (exists r, run_search fusion_engine two_words None 20 semantic = inr [r]
                /\ (score r == 0.6)%Q)
  /\ (exists r, run_search fusion_engine two_words None 20 hybrid = inr [r]
                /\ (score r == (0.8 * 0.6 + 0.6 * 0.4) / (1 + 0.4))%Q
                /\ (score r == 18 # 35)%Q
                /\ ~ (score r == 0.4286)%Q
                /\ (0.51 < score r)%Q)
  /\ PrimFloat.ltb Binary64.lower_bound Binary64.worked_example = true
  /\ PrimFloat.ltb Binary64.worked_example Binary64.upper_bound = true
  /\ PrimFloat.eqb Binary64.worked_example Binary64.stated_value = false.
Proof.
  split; [vm_compute; reflexivity|]. split; [|split].
  - eexists. split; [vm_compute; reflexivity|]. vm_compute. reflexivity.
  - eexists. split; [vm_compute; reflexivity|].
    repeat split; try (vm_compute; reflexivity).
    vm_compute. discriminate.
  - repeat split; vm_compute; reflexivity.
Qed.

Lemma C1_witness :
  NoDup (map (fun r => id (doc r)) [result_of one_doc 0.8])
  /\ NoDup (map (fun r => id (doc r)) [result_of one_doc 0.6])
  /\ get (id one_doc) (combine [result_of one_doc 0.8] [result_of one_doc 0.6])
     = Some (result_of one_doc ((0.8 * 0.6 + 0.6 * 0.4) / 1.4)).
Proof.
  assert (H1 : NoDup (map (fun r => id (doc r)) [result_of one_doc 0.8]))
    by (repeat constructor; simpl; tauto).
  assert (H2 : NoDup (map (fun r => id (doc r)) [result_of one_doc 0.6]))
    by (repeat constructor; simpl; tauto).
  split; [exact H1|]. split; [exact H2|].
  exact (proj2 (proj2 (C1_hybrid_running_average
                        [result_of one_doc 0.8] [result_of one_doc 0.6]
                        (id one_doc) H1 H2))).
Defined.

(** C2, as stated, fails for the queries without any token: the empty
    query and a query of spaces make [search] return the empty list in
    every mode. *)
Lemma C2_blank_query_is_not_rejected :
  length (query_words (trim (lit "   "))) < 2
  /\ length (query_words (trim [])) < 2
  /\ forall mode,
       run_search fusion_engine (lit "   ") None 20 mode = inr []
       /\ run_search fusion_engine [] None 20 mode = inr [].
Proof.
  split; [vm_compute; lia|]. split; [vm_compute; lia|].
  intros []; split; vm_compute; reflexivity.
Qed.

Lemma C2_witness :
  length (query_words (trim (lit " hello "))) = 1
  /\ run_search fusion_engine (lit " hello ") None 20 hybrid = inl TooFewWords.
Proof.
  assert (H : length (query_words (trim (lit " hello "))) = 1)
    by (vm_compute; reflexivity).
  split; [exact H|].
  exact (proj1 (C2_short_query_rejected_or_empty fixed_ranking unit_embedding
                  exact_sqrt [hit one_doc 0.8] fusion_kb (lit " hello ") None 20
                  hybrid) H).
Defined.





End SearchExamples.

(** C8, amended, at an artifact that is accepted. *)
Lemma C8_witness :
  KbSchema.writeKB Samples.tiny_json Samples.tiny_json Samples.slash_join
    (Samples.kb_of [Samples.one_doc] None) (lit "dist") []
  = (KbSchema.Written,
     [(lit "dist/kb.min.json", lit "{}"); (lit "dist/kb.json", lit "{}")]).
Proof.
  apply (proj1 (C8_write_only_after_validation Samples.tiny_json Samples.tiny_json
                  Samples.slash_join (Samples.kb_of [Samples.one_doc] None)
                  (lit "dist") [])).
  repeat split; try discriminate; try reflexivity.
  repeat constructor; discriminate.
Defined.

(* ===================================================================== *)
(** * Properties of loading and caching *)
(* ===================================================================== *)

Section LoaderProperties.

Import Loader Samples.

Variable LunrIndex : Type.
Variable lunr_load : jsstring -> option LunrIndex.

(** Once the engine holds its index and its copy of the artifact, a call
    ends at once: nothing is fetched and nothing is parsed. *)
Lemma initialized_call_reuses_cache (srv : server) (w : world LunrIndex)
  (idx : LunrIndex) (p : payload) :
  Loader.searchIndex w = Some idx -> Loader.kbData w = Some p ->
  initializeIndex lunr_load srv w Start = (w, Finished).
Proof. intros Hi Hk. simpl. now rewrite Hi, Hk. Qed.

(** [clearKBCache] empties the cache of the loader; the copy that the
    engine holds stays, so the next call still ends at once. *)
Lemma reset_keeps_engine_copy (srv : server) (w : world LunrIndex)
  (idx : LunrIndex) (p : payload) :
  Loader.searchIndex w = Some idx -> Loader.kbData w = Some p ->
  cachedKB (clearKBCache w) = None
  /\ initializeIndex lunr_load srv (clearKBCache w) Start
     = (clearKBCache w, Finished).
Proof. intros Hi Hk. simpl. now rewrite Hi, Hk. Qed.

End LoaderProperties.

(** A first call on its own fetches the minified file once and parses it
    once. *)
Lemma first_call_loads_once :
  exists w,
    Loader.run_alone Samples.keep_blob (Samples.serving Samples.fusion_kb)
      (Loader.initial jsstring) = (w, Loader.Finished)
    /\ Loader.fetched w = [Loader.KB_MIN_PATH]
    /\ Loader.parsed w = 1
    /\ Loader.index_loads w = 1.
Proof. eexists. split; [vm_compute; reflexivity|]. repeat split. Qed.

(** The six calls that the search hook starts together fetch and parse the
    artifact six times. *)
Lemma hook_calls_load_six_times :
  exists w,
    Loader.run Samples.keep_blob (Samples.serving Samples.fusion_kb)
      Samples.six_in_turn (Loader.initial jsstring, Samples.six_calls)
    = (w, repeat Loader.Finished 6)
    /\ length (Loader.fetched w) = 6
    /\ Loader.parsed w = 6
    /\ Loader.index_loads w = 6.
Proof. eexists. split; [vm_compute; reflexivity|]. repeat split. Qed.

(** C9 fails on the code: two calls started before the first load has
    completed each find the cache empty, so the artifact is fetched twice
    and parsed twice, and the index is built twice. *)
Theorem C9_concurrent_first_calls_load_twice :
  exists w,
    Loader.run Samples.keep_blob (Samples.serving Samples.fusion_kb)
      Samples.in_turn (Loader.initial jsstring, Samples.two_calls)
    = (w, [Loader.Finished; Loader.Finished])
    /\ Loader.fetched w = [Loader.KB_MIN_PATH; Loader.KB_MIN_PATH]
    /\ Loader.parsed w = 2
    /\ Loader.index_loads w = 2.
Proof. eexists. split; [vm_compute; reflexivity|]. repeat split. Qed.
